(** * LODLs [utils.py]: a shallow embedding and its verified properties

    The module under study is a set of experiment helpers: an output-capture
    scope, a file lock wrapper, a disk-backed cache of "problem" objects keyed
    by their construction keyword arguments, a metrics reporter, a few tensor
    shape helpers, a reshaping layer, a linear solve with one regularised
    retry and a helper that moves the tensors of a problem to the device.

    Conventions of the embedding.
    - A Python call that may raise returns a [result]; the exception class is
      kept, the message is not.
    - Tensors are a shape together with an accessor from multi-indices to
      entries.  Entries of numeric tensors are exact rationals ([Qc]); the
      rounding of machine floats is not modelled.
    - The process state a function touches (the file system, the text written
      to standard output, the caller's [kwargs] dictionary) is passed in and
      returned explicitly.
    - Collaborators that the module receives or imports (the problem class, the
      predictor, the loss, the linear solver) are arguments of the embedded
      functions; so is what the disk decides when the cache saves (whether a
      file can be opened for writing, whether an instance can be pickled, and
      how a table written as CSV reads back). *)

From Stdlib Require Import ZArith QArith Qcanon Qcabs.
From stdpp Require Import gmap strings list fin_maps functions pretty.

Open Scope Z_scope.
Open Scope nat_scope.

(** ** Exceptions and fallible computations *)

(** The exception classes the module can meet.  [LinAlgError] is the class
    [torch.linalg.solve] raises on a singular matrix; it derives from
    [RuntimeError]. *)
Inductive exn : Type :=
| RuntimeError
| LinAlgError
| IndexError
| KeyError
| TypeError
| ValueError
| AttributeError
| FileNotFoundError
| UnpicklingError
| ParserError
| OSError
| OtherError (name : string).

(** [isinstance(e, RuntimeError)], what [except RuntimeError] tests. *)
Definition is_RuntimeError (e : exn) : bool :=
  match e with
  | RuntimeError | LinAlgError => true
  | _ => false
  end.

Inductive result (A : Type) : Type :=
| Ok (a : A)
| Raise (e : exn).

Arguments Ok {A} a.
Arguments Raise {A} e.

#[global] Instance result_ret : MRet result := fun A a => Ok a.
#[global] Instance result_bind : MBind result := fun A B f m =>
  match m with
  | Ok a => f a
  | Raise e => Raise e
  end.
#[global] Instance result_fmap : FMap result := fun A B f m =>
  match m with
  | Ok a => Ok (f a)
  | Raise e => Raise e
  end.

Fixpoint mapM_result {A B} (f : A -> result B) (l : list A) : result (list B) :=
  match l with
  | [] => Ok []
  | x :: l' => y ← f x; ys ← mapM_result f l'; Ok (y :: ys)
  end.

(** ** Standard output

    [sys.stdout] is a reference to a stream object: the process's real output
    or a [StringIO].  [StringIO] objects live in a store indexed by their
    identity; this module never closes one, and closing is not modelled. *)

Inductive stream : Type :=
| Console
| StringIO (id : nat).

Record stdio : Type := Stdio {
  console : string;          (* the text that reached the real output *)
  sys_stdout : stream;       (* what [sys.stdout] refers to *)
  buffers : nat -> string;   (* the contents of the [StringIO] objects *)
  next_id : nat              (* the identity the next [StringIO()] gets *)
}.

Definition stdio0 : stdio := Stdio "" Console (fun _ => "") 0.

(** [sys.stdout.write(s)] *)
Definition write (s : string) (io : stdio) : stdio :=
  match sys_stdout io with
  | Console => Stdio (console io +:+ s) Console (buffers io) (next_id io)
  | StringIO i =>
      Stdio (console io) (StringIO i) (<[i := buffers io i +:+ s]> (buffers io)) (next_id io)
  end.

Definition newline : string := String (Ascii.ascii_of_nat 10) "".

(** [print(s)] *)
Definition print_ (s : string) (io : stdio) : stdio := write (s +:+ newline) io.

(** ** Tensors *)

Record tensor (A : Type) : Type := Tensor {
  shape : list nat;
  elem : list nat -> A
}.

Arguments Tensor {A} shape elem.
Arguments shape {A} t.
Arguments elem {A} t idx.

Definition ndim {A} (t : tensor A) : nat := length (shape t).

(** All multi-indices of a shape, in row-major order. *)
Fixpoint indices (sh : list nat) : list (list nat) :=
  match sh with
  | [] => [[]]
  | d :: sh' => i ← seq 0 d; (fun idx => i :: idx) <$> indices sh'
  end.

Definition numel {A} (t : tensor A) : nat := length (indices (shape t)).

(** The entries of a tensor in row-major order. *)
Definition entries {A} (t : tensor A) : list A := elem t <$> indices (shape t).

(** A scalar read out of a tensor by [.item()]: a number, or NaN (the mean of
    no entries). *)
Inductive scalar : Type :=
| Fin (q : Qc)
| NaN.

(** *** The tensor operations of the library that the module calls *)

Module Torch.

(** [I[(...,) + (None,) * n]]: [n] new axes of size 1 on the right.  Python's
    [(None,) * n] is empty for [n <= 0], which is what [n : nat] obtained by
    truncated subtraction gives. *)
Definition unsqueeze_right {A} (n : nat) (t : tensor A) : tensor A :=
  Tensor (shape t ++ replicate n 1) (fun idx => elem t (take (ndim t) idx)).

(** Reading a tensor of shape [sh] at an index of a shape it was broadcast
    to: the trailing [length sh] positions count, and a dimension of size 1
    is read at 0. *)
Definition bcast_index (sh idx : list nat) : list nat :=
  zip_with (fun d i => if d =? 1 then 0 else i) sh (drop (length idx - length sh) idx).

(** One dimension of [expand]: [-1] keeps the size, an equal size keeps it, a
    dimension of size 1 is repeated; anything else is refused. *)
Definition expand_dim (d : nat) (s : Z) : result nat :=
  if (s =? -1)%Z then Ok d
  else if (s <? 0)%Z then Raise RuntimeError
  else if (Z.of_nat d =? s)%Z then Ok d
  else if d =? 1 then Ok (Z.to_nat s)
  else Raise RuntimeError.

Fixpoint expand_dims (sh : list nat) (sizes : list Z) : result (list nat) :=
  match sh, sizes with
  | [], [] => Ok []
  | d :: sh', s :: sizes' =>
      d' ← expand_dim d s; rest ← expand_dims sh' sizes'; Ok (d' :: rest)
  | _, _ => Raise RuntimeError
  end.

(** A new leading dimension of [expand] needs an explicit size. *)
Definition new_dim (s : Z) : result nat :=
  if (s <? 0)%Z then Raise RuntimeError else Ok (Z.to_nat s).

(** [tensor.expand(sizes)]: sizes are aligned on the right, and new leading
    dimensions may be added; the result reads the source as broadcasting
    does. *)
Definition expand {A} (sizes : list Z) (t : tensor A) : result (tensor A) :=
  if length sizes <? ndim t then Raise RuntimeError
  else
    let k := length sizes - ndim t in
    lead ← mapM_result new_dim (take k sizes);
    rest ← expand_dims (shape t) (drop k sizes);
    Ok (Tensor (lead ++ rest) (fun idx => elem t (bcast_index (shape t) idx))).

(** The sizes of [index] fit those of the source outside dimension [dim]. *)
Fixpoint gather_sizes_ok (dim : nat) (ish tsh : list nat) : bool :=
  match ish, tsh with
  | [], [] => true
  | i :: ish', t :: tsh' =>
      match dim with
      | 0 => forallb (fun p => fst p <=? snd p) (zip ish' tsh')
      | S dim' => (i <=? t) && gather_sizes_ok dim' ish' tsh'
      end
  | _, _ => false
  end.

(** [tensor.gather(dim, index)] for [dim >= 0]:
    [out[idx] = tensor[idx with position dim replaced by index[idx]]]. *)
Definition gather {A} (dim : nat) (index : tensor Z) (t : tensor A) : result (tensor A) :=
  match shape t !! dim with
  | None => Raise IndexError
  | Some size =>
      if negb (ndim index =? ndim t) then Raise RuntimeError
      else if negb (gather_sizes_ok dim (shape index) (shape t)) then Raise RuntimeError
      else if negb (forallb (fun idx => (0 <=? elem index idx)%Z
                                        && (elem index idx <? Z.of_nat size)%Z)
                      (indices (shape index)))
      then Raise RuntimeError
      else Ok (Tensor (shape index)
                 (fun idx => elem t (<[dim := Z.to_nat (elem index idx)]> idx)))
  end.

(** [tensor.squeeze(dim)] for [dim >= 0]: drops dimension [dim] when its size
    is 1, and is the identity otherwise. *)
Definition squeeze {A} (dim : nat) (t : tensor A) : result (tensor A) :=
  match shape t !! dim with
  | None => if (ndim t =? 0) && (dim =? 0) then Ok t else Raise IndexError
  | Some d =>
      if d =? 1
      then Ok (Tensor (delete dim (shape t))
                 (fun idx => elem t (take dim idx ++ 0 :: drop dim idx)))
      else Ok t
  end.

(** Broadcasting of two shapes, from the last dimension backwards. *)
Fixpoint broadcast_rev (r1 r2 : list nat) : result (list nat) :=
  match r1, r2 with
  | [], r => Ok r
  | r, [] => Ok r
  | a :: r1', b :: r2' =>
      d ← (if a =? b then Ok a
           else if a =? 1 then Ok b
           else if b =? 1 then Ok a
           else Raise RuntimeError);
      rest ← broadcast_rev r1' r2';
      Ok (d :: rest)
  end.

Definition broadcast_shapes (s1 s2 : list nat) : result (list nat) :=
  reverse <$> broadcast_rev (reverse s1) (reverse s2).

(** An entrywise binary operation with broadcasting. *)
Definition map2 {A B C} (f : A -> B -> C) (a : tensor A) (b : tensor B) : result (tensor C) :=
  sh ← broadcast_shapes (shape a) (shape b);
  Ok (Tensor sh (fun idx => f (elem a (bcast_index (shape a) idx))
                              (elem b (bcast_index (shape b) idx)))).

Definition map {A B} (f : A -> B) (a : tensor A) : tensor B :=
  Tensor (shape a) (fun idx => f (elem a idx)).

(** [a + b], [-a], [c * a] *)
Definition add (a b : tensor Qc) : result (tensor Qc) := map2 Qcplus a b.
Definition neg (a : tensor Qc) : tensor Qc := map Qcopp a.
Definition scale (c : Qc) (a : tensor Qc) : tensor Qc := map (Qcmult c) a.

(** [torch.eye(n)] *)
Definition eye (n : nat) : tensor Qc :=
  Tensor [n; n] (fun idx => match idx with
                            | [i; j] => if i =? j then 1%Qc else 0%Qc
                            | _ => 0%Qc
                            end).

(** [torch.zeros_like(t)] *)
Definition zeros_like (t : tensor Qc) : tensor Qc :=
  Tensor (shape t) (fun _ => 0%Qc).

Definition Qcsum (l : list Qc) : Qc := foldr Qcplus 0%Qc l.

(** [t.mean().item()]: NaN for a tensor without entries. *)
Definition mean (t : tensor Qc) : scalar :=
  match numel t with
  | 0 => NaN
  | S _ => Fin (Qcsum (entries t) / Q2Qc (inject_Z (Z.of_nat (numel t))))
  end.

(** [torch.nn.L1Loss()(input, target).item()]: the mean of the absolute
    differences, the two tensors being broadcast to a common shape. *)
Definition L1Loss (input target : tensor Qc) : result scalar :=
  mean <$> map2 (fun x y => Qcabs (x - y)) input target.

(** [len(t)] *)
Definition len {A} (t : tensor A) : result nat :=
  match shape t with
  | [] => Raise TypeError
  | d :: _ => Ok d
  end.

(** [t[i]] for [i >= 0] *)
Definition select {A} (i : nat) (t : tensor A) : result (tensor A) :=
  match shape t with
  | [] => Raise IndexError
  | d :: sh => if i <? d then Ok (Tensor sh (fun idx => elem t (i :: idx)))
               else Raise IndexError
  end.

(** The index of the source that an index of [t.squeeze()] stands for. *)
Fixpoint unsqueeze_index (sh idx : list nat) : list nat :=
  match sh with
  | [] => []
  | d :: sh' =>
      if d =? 1 then 0 :: unsqueeze_index sh' idx
      else match idx with
           | i :: idx' => i :: unsqueeze_index sh' idx'
           | [] => 0 :: unsqueeze_index sh' []
           end
  end.

(** [t.squeeze()]: every dimension of size 1 is dropped. *)
Definition squeeze_all {A} (t : tensor A) : tensor A :=
  Tensor (filter (fun d => d ≠ 1) (shape t))
         (fun idx => elem t (unsqueeze_index (shape t) idx)).

(** [torch.stack(ts)]: the tensors, all of one shape, along a new first
    dimension. *)
Definition stack (ts : list (tensor Qc)) : result (tensor Qc) :=
  match ts with
  | [] => Raise RuntimeError
  | t0 :: _ =>
      if forallb (fun t => bool_decide (shape t = shape t0)) ts
      then Ok (Tensor (length ts :: shape t0)
                 (fun idx => match idx with
                             | i :: idx' => from_option (fun t => elem t idx') 0%Qc (ts !! i)
                             | [] => 0%Qc
                             end))
      else Raise RuntimeError
  end.

(** [t.flatten()]: the entries in row-major order, as one dimension. *)
Definition flatten (t : tensor Qc) : tensor Qc :=
  Tensor [numel t] (fun idx => match idx with
                               | [k] => default 0%Qc (entries t !! k)
                               | _ => 0%Qc
                               end).

(** The number of entries of a shape. *)
Definition prod (sh : list nat) : nat := foldr Nat.mul 1 sh.

(** The position of a multi-index in row-major order, and the multi-index at
    a position. *)
Fixpoint ravel (sh idx : list nat) : nat :=
  match sh, idx with
  | _ :: sh', i :: idx' => i * prod sh' + ravel sh' idx'
  | _, _ => 0
  end.

Fixpoint unravel (sh : list nat) (k : nat) : list nat :=
  match sh with
  | [] => []
  | _ :: sh' => k / prod sh' :: unravel sh' (k mod prod sh')
  end.

(** The sizes a [view] ends with: at most one size may be [-1], which is then
    worked out from the number of entries; the sizes must account for all the
    entries. *)
Definition infer_size (sizes : list Z) (n : nat) : result (list nat) :=
  if existsb (fun s => (s <? -1)%Z) sizes then Raise RuntimeError
  else
    let known := prod (Z.to_nat <$> filter (fun s => s ≠ (-1)%Z) sizes) in
    match length (filter (fun s => s = (-1)%Z) sizes) with
    | 0 => if known =? n then Ok (Z.to_nat <$> sizes) else Raise RuntimeError
    | 1 => if (0 <? known) && (n mod known =? 0)
           then Ok ((fun s => if (s =? -1)%Z then n / known else Z.to_nat s) <$> sizes)
           else Raise RuntimeError
    | _ => Raise RuntimeError
    end.

(** [t.view(sizes)] of a contiguous tensor: the same entries in the same
    row-major order, under another shape. *)
Definition view {A} (sizes : list Z) (t : tensor A) : result (tensor A) :=
  sh ← infer_size sizes (numel t);
  Ok (Tensor sh (fun idx => elem t (unravel (shape t) (ravel sh idx)))).

End Torch.

(** ** Shape helpers *)

(** [trim_left]:
<<
    while tensor.shape[0] == 1:
        tensor = tensor[0]
    return tensor
>>
    The loop is a recursion on the shape: each turn reads [shape[0]] (an
    [IndexError] when the tensor has no dimension left) and, when it is 1,
    goes on with [tensor[0]], whose shape is the tail. *)
Fixpoint trim_left_from {A} (sh : list nat) (f : list nat -> A) : result (tensor A) :=
  match sh with
  | [] => Raise IndexError
  | d :: sh' =>
      if d =? 1 then trim_left_from sh' (fun idx => f (0 :: idx))
      else Ok (Tensor sh f)
  end.

Definition trim_left {A} (t : tensor A) : result (tensor A) :=
  trim_left_from (shape t) (elem t).

(** [gather_incomplete_left]:
<<
    tensor.gather(I.ndim,
        I[(...,) + (None,) * (tensor.ndim - I.ndim)]
          .expand((-1,) * (I.ndim + 1) + tensor.shape[I.ndim + 1:])
    ).squeeze(I.ndim)
>> *)
Definition gather_incomplete_left {A} (t : tensor A) (I : tensor Z) : result (tensor A) :=
  index ← Torch.expand (replicate (ndim I + 1) (-1)%Z
                    ++ (Z.of_nat <$> drop (ndim I + 1) (shape t)))
                 (Torch.unsqueeze_right (ndim t - ndim I) I);
  g ← Torch.gather (ndim I) index t;
  Torch.squeeze (ndim I) g.

(** ** Linear solve with one regularised retry *)

(** [solve_lineqn]:
<<
    try:
        result = torch.linalg.solve(A, b)
    except RuntimeError:
        print(f"WARNING: The matrix was singular")
        result = torch.linalg.solve(A + eps * torch.eye(A.shape[-1]), b)
    return result
>>
    [linalg_solve] is the library's solver. *)
Definition solve_lineqn (linalg_solve : tensor Qc -> tensor Qc -> result (tensor Qc))
    (A b : tensor Qc) (eps : Qc) (io : stdio) : result (tensor Qc) * stdio :=
  match linalg_solve A b with
  | Ok x => (Ok x, io)
  | Raise e =>
      if is_RuntimeError e then
        let io' := print_ "WARNING: The matrix was singular" io in
        (n ← from_option Ok (Raise IndexError) (last (shape A));
         A' ← Torch.add A (Torch.scale eps (Torch.eye n));
         linalg_solve A' b, io')
      else (Raise e, io)
  end.

(** ** Metrics reporter *)

(** The decision problem, with its two methods. *)
Record problem_t (aux dec : Type) : Type := Problem {
  get_decision : tensor Qc -> list aux -> bool -> dec;
  get_objective : tensor Qc -> dec -> list aux -> tensor Qc
}.

Arguments get_decision {aux dec} p pred aux_data isTrain.
Arguments get_objective {aux dec} p Ys Zs aux_data.

(** One entry of the returned dictionary. *)
Record metric : Type := Metric {
  objective : scalar;
  loss : scalar;
  mae : scalar
}.

(** One element of [datasets]: [(Xs, Ys, Ys_aux, partition)]. *)
Definition dataset (aux : Type) : Type := tensor Qc * tensor Qc * list aux * string.

Section Metrics.

Context {aux dec : Type}.
(** The predictor, the problem and the loss. *)
Variable model : tensor Qc -> tensor Qc.
Variable problem : problem_t aux dec.
Variable loss_fn : tensor Qc -> tensor Qc -> aux -> string -> nat -> tensor Qc.
(** Python's formatting of a float inside an f-string. *)
Variable str_float : scalar -> string.

(** The surrogate losses of a partition, one sample at a time:
<<
    for i in range(len(Xs)):
        pred = model(Xs[i]).squeeze()
        losses.append(loss_fn(pred, Ys[i], aux_data=Ys_aux[i], partition=partition, index=i))
    losses = torch.stack(losses).flatten()
>> *)
Definition sample_losses (Xs Ys : tensor Qc) (Ys_aux : list aux) (partition : string)
    : result (tensor Qc) :=
  n ← Torch.len Xs;
  losses ← mapM_result (fun i =>
              x ← Torch.select i Xs;
              let pred := Torch.squeeze_all (model x) in
              y ← Torch.select i Ys;
              a ← from_option Ok (Raise IndexError) (Ys_aux !! i);
              Ok (loss_fn pred y a partition i)) (seq 0 n);
  Torch.flatten <$> Torch.stack losses.

(** The body of the loop over [datasets], up to the three reported numbers. *)
Definition partition_metrics (prefix : string) (d : dataset aux) : result metric :=
  let '(Xs, Ys, Ys_aux, partition) := d in
  let isTrain := bool_decide (partition = "train") && negb (bool_decide (prefix = "Final")) in
  let pred := Torch.squeeze_all (model Xs) in
  let Zs_pred := get_decision problem pred Ys_aux isTrain in
  let objectives := get_objective problem Ys Zs_pred Ys_aux in
  losses ← (if bool_decide (partition ≠ "test")
            then sample_losses Xs Ys Ys_aux partition
            else Ok (Torch.zeros_like objectives));
  let objective := Torch.mean objectives in
  let loss := Torch.mean losses in
  mae ← Torch.L1Loss losses (Torch.neg objectives);
  Ok (Metric objective loss mae).

(** The line printed for a partition. *)
Definition metrics_line (prefix partition : string) (m : metric) : string :=
  prefix +:+ " " +:+ partition +:+ " DQ: " +:+ str_float (objective m)
    +:+ ", Loss: " +:+ str_float (loss m) +:+ ", MAE: " +:+ str_float (mae m).

(** The loop of [print_metrics], from the dictionary built so far. *)
Fixpoint print_metrics_from (prefix : string) (datasets : list (dataset aux))
    (metrics : gmap string metric) (io : stdio) : result (gmap string metric) * stdio :=
  match datasets with
  | [] => (Ok metrics, io)
  | d :: datasets' =>
      match partition_metrics prefix d with
      | Raise e => (Raise e, io)
      | Ok m =>
          let partition := snd d in
          print_metrics_from prefix datasets'
            (<[partition := m]> metrics)
            (print_ (metrics_line prefix partition m) io)
      end
  end.

(** [print_metrics(datasets, model, problem, loss_type, loss_fn, prefix)];
    [loss_type] is not used by the function. *)
Definition print_metrics (datasets : list (dataset aux)) (loss_type : string)
    (prefix : string) (io : stdio) : result (gmap string metric) * stdio :=
  print_metrics_from prefix datasets ∅ io.

End Metrics.

(** ** Output capture *)

(** The line boundaries of [str.splitlines]: LF, VT, FF, FS, GS, RS, NEL.  CR
    is handled apart, because CR LF is one boundary. *)
Definition is_linebreak (c : Ascii.ascii) : bool :=
  let n := Ascii.nat_of_ascii c in
  (n =? 10) || (n =? 11) || (n =? 12) || (n =? 28) || (n =? 29) || (n =? 30) || (n =? 133).

Definition is_CR (c : Ascii.ascii) : bool := Ascii.nat_of_ascii c =? 13.
Definition is_LF (c : Ascii.ascii) : bool := Ascii.nat_of_ascii c =? 10.

(** [s.splitlines()], with [line] the text of the line being read. *)
Fixpoint splitlines_from (line s : string) : list string :=
  match s with
  | EmptyString => if bool_decide (line = "") then [] else [line]
  | String c s' =>
      if is_CR c then
        match s' with
        | String c' s'' =>
            if is_LF c' then line :: splitlines_from "" s''
            else line :: splitlines_from "" s'
        | EmptyString => [line]
        end
      else if is_linebreak c then line :: splitlines_from "" s'
      else splitlines_from (line +:+ String c "") s'
  end.

Definition splitlines (s : string) : list string := splitlines_from "" s.

(** An instance of [class Capturing(list)]: the list's items and the two
    attributes [__enter__] sets. *)
Record Capturing : Type := MkCapturing {
  items : list string;
  saved_stdout : option stream;   (* self._stdout *)
  stringio : option nat           (* self._stringio *)
}.

(** [Capturing()] *)
Definition Capturing_new : Capturing := MkCapturing [] None None.

(** [__enter__]:
<<
    self._stdout = sys.stdout
    sys.stdout = self._stringio = StringIO()
    return self
>> *)
Definition Capturing_enter (self : Capturing) (io : stdio) : Capturing * stdio :=
  let i := next_id io in
  (MkCapturing (items self) (Some (sys_stdout io)) (Some i),
   Stdio (console io) (StringIO i) (<[i := ""]> (buffers io)) (S i)).

(** [__exit__]:
<<
    self.extend(self._stringio.getvalue().splitlines())
    del self._stringio    # free up some memory
    sys.stdout = self._stdout
>>
    It returns [None], so an exception of the body goes on to the caller. *)
Definition Capturing_exit (self : Capturing) (io : stdio) : result (Capturing * stdio) :=
  match stringio self with
  | None => Raise AttributeError
  | Some i =>
      let self1 := MkCapturing (items self ++ splitlines (buffers io i))
                     (saved_stdout self) None in
      match saved_stdout self with
      | None => Raise AttributeError
      | Some out =>
          Ok (self1, Stdio (console io) out (buffers io) (next_id io))
      end
  end.

(** [with Capturing() as output: body].  The outcome of the body, the object
    bound to [output] and the output state after the block. *)
Definition with_Capturing {A} (body : stdio -> result A * stdio) (io : stdio)
    : result A * Capturing * stdio :=
  let '(output, io1) := Capturing_enter Capturing_new io in
  let '(r, io2) := body io1 in
  match Capturing_exit output io2 with
  | Ok (output', io3) => (r, output', io3)
  | Raise e => (Raise e, output, io2)
  end.

(** [os.environ.get("LOG_OPT_STDOUT", False)] taken as a condition. *)
Definition log_opt_stdout (environ : gmap string string) : bool :=
  match environ !! "LOG_OPT_STDOUT" with
  | Some v => negb (bool_decide (v = ""))
  | None => false
  end.

(** [capture(fn)]:
<<
    with Capturing() as output:
        fn_output = fn( *args, **kwargs)
    if os.environ.get("LOG_OPT_STDOUT", False):
        print(output)
    return fn_output
>>
    [repr_lines] is Python's [repr] of a list of strings. *)
Definition capture {A} (repr_lines : list string -> string) (environ : gmap string string)
    (fn : stdio -> result A * stdio) (io : stdio) : result A * stdio :=
  let '(r, output, io') := with_Capturing fn io in
  match r with
  | Raise e => (Raise e, io')
  | Ok fn_output =>
      (Ok fn_output,
       if log_opt_stdout environ then print_ (repr_lines (items output)) io' else io')
  end.

(** ** The lock decorator *)

(** The lock file [.lock] as the operating system sees it: the open file
    descriptions on it, and the one that holds the exclusive [flock], if any.
    A lock belongs to an open file description; it goes away on [LOCK_UN] or
    when the description is closed. *)
Record flock_state : Type := Flock {
  open_fds : gset nat;
  holder : option nat
}.

(** [open(".lock", "a")]: a new open file description. *)
Definition open_lock (l : flock_state) : nat * flock_state :=
  let fd := fresh (open_fds l ∪ option_to_set (holder l)) in
  (fd, Flock ({[fd]} ∪ open_fds l) (holder l)).

(** [fcntl.flock(fd, fcntl.LOCK_EX)].  The call waits while another
    description holds the lock; in a run of this process alone it then never
    returns, which is [None]. *)
Definition flock_ex (fd : nat) (l : flock_state) : option flock_state :=
  match holder l with
  | None => Some (Flock (open_fds l) (Some fd))
  | Some h => if decide (h = fd) then Some l else None
  end.

(** [fcntl.flock(fd, fcntl.LOCK_UN)] *)
Definition flock_un (fd : nat) (l : flock_state) : flock_state :=
  if decide (holder l = Some fd) then Flock (open_fds l) None else l.

(** Closing the file, which [with open(...)] does on every way out of its
    block. *)
Definition close_lock (fd : nat) (l : flock_state) : flock_state :=
  Flock (open_fds l ∖ {[fd]}) (if decide (holder l = Some fd) then None else holder l).

(** [lock(fn)]:
<<
    with open(".lock", "a") as file:
        fcntl.flock(file.fileno(), fcntl.LOCK_EX)
        res = fn( *args, **kwargs)
        # Release the lock
        fcntl.flock(file.fileno(), fcntl.LOCK_UN)
    return res
>>
    [fn] runs on the state [S] it can reach; the lock file's descriptor is
    local to the wrapper. *)
Definition lock {S A : Type} (fn : S -> result A * S) (s : S) (l : flock_state)
    : option (result A * S * flock_state) :=
  let '(file, l1) := open_lock l in
  match flock_ex file l1 with
  | None => None
  | Some l2 =>
      let '(r, s') := fn s in
      match r with
      | Ok res => Some (Ok res, s', close_lock file (flock_un file l2))
      | Raise e => Some (Raise e, s', close_lock file l2)
      end
  end.

(** ** The problem index and cache *)

(** The values of keyword arguments and of index cells: integers, decimal
    numbers (exact rationals) and strings. *)
Inductive value : Type :=
| VInt (n : Z)
| VNum (q : Qc)
| VStr (s : string).

(** Python's [==] on these values. *)
Definition py_eq (a b : value) : bool :=
  match a, b with
  | VInt m, VInt n => (m =? n)%Z
  | VNum p, VNum q => Qc_eq_bool p q
  | VInt m, VNum q | VNum q, VInt m => Qc_eq_bool (Q2Qc (inject_Z m)) q
  | VStr s, VStr t => String.eqb s t
  | _, _ => false
  end.

(** A cell read out of a table: a value, or the NaN that fills a column a row
    has no value for. *)
Inductive cell : Type :=
| Missing
| Cell (v : value).

(** [cell == val] *)
Definition cell_eq (c : cell) (val : value) : bool :=
  match c with
  | Missing => false
  | Cell v => py_eq v val
  end.

(** A [pandas.DataFrame]: the column labels in order, and the rows in order.
    A row maps the columns it has a value for; the others read as NaN. *)
Record DataFrame : Type := MkDataFrame {
  columns : list string;
  rows : list (gmap string value)
}.

Definition get_cell (r : gmap string value) (col : string) : cell :=
  match r !! col with
  | Some v => Cell v
  | None => Missing
  end.

(** [pd.DataFrame(columns=cols)] *)
Definition empty_frame (cols : list string) : DataFrame := MkDataFrame cols [].

(** [pd.DataFrame.from_dict([d])]: one row, the keys as columns. *)
Definition from_dict (d : gmap string value) : DataFrame :=
  MkDataFrame (map_to_list d).*1 [d].

(** [pd.concat([a, b])]: the rows of [a] then those of [b], over the columns
    of [a] followed by the new ones of [b]. *)
Definition concat (a b : DataFrame) : DataFrame :=
  MkDataFrame (columns a ++ filter (fun c => c ∉ columns a) (columns b))
              (rows a ++ rows b).

(** [df.empty]: an axis of length 0. *)
Definition df_empty (df : DataFrame) : bool :=
  bool_decide (rows df = []) || bool_decide (columns df = []).

(** [df.loc[df[col] == val]] *)
Definition loc_eq (col : string) (val : value) (rs : list (gmap string value))
    : list (gmap string value) :=
  filter (fun r => cell_eq (get_cell r col) val = true) rs.

(** What a file holds.  A pickled object is kept as the object that
    [pickle.load] gives back.  A table is kept as the table that
    [pd.read_csv] reads from the file; the labels of such a table are
    distinct, since [read_csv] renames the repeated ones. *)
Inductive file (P : Type) : Type :=
| CsvFile (df : DataFrame)
| PickleFile (p : P)
| OtherFile (content : string).

Arguments CsvFile {P} df.
Arguments PickleFile {P} p.
Arguments OtherFile {P} content.

Definition ends_with_slash (a : string) : bool :=
  match String.rev a with
  | String c _ => Ascii.nat_of_ascii c =? 47
  | EmptyString => false
  end.

(** [os.path.join(a, b)] on POSIX: an absolute [b] replaces [a]; otherwise
    the two are put together, with a separator unless [a] is empty or already
    ends with one. *)
Definition os_path_join (a b : string) : string :=
  if String.prefix "/" b then b
  else if bool_decide (a = "") || ends_with_slash a then a +:+ b
  else a +:+ "/" +:+ b.

(** The class of the cached objects: its [__name__], and its constructor
    called with keyword arguments. *)
Record problem_class (P : Type) : Type := ProblemClass {
  cls_name : string;
  cls_init : gmap string value -> result P
}.

Arguments cls_name {P} p.
Arguments cls_init {P} p kwargs.

(** What [pickle.dump(problem, file)] does: it writes the instance, or it
    raises, having written [partial] to the file. *)
Inductive dump_outcome : Type :=
| Dumped
| DumpFails (e : exn) (partial : string).

(** What the disk decides when the cache saves.
    - [open_error path]: the exception that [open(path, 'w')] or
      [open(path, 'wb')] raises, if it raises ([FileNotFoundError] when the
      directory does not exist).
    - [pickle_dump problem]: the outcome of [pickle.dump].
    - [read_back df]: the table that [pd.read_csv] reads from the text that
      [df.to_csv(file, index=False)] writes.  The cells come back with the
      types [read_csv] infers for their columns, which need not be the types
      they were written with (the string ['1'] comes back as the integer
      [1]). *)
Record storage (P : Type) : Type := Storage {
  open_error : string -> option exn;
  pickle_dump : P -> dump_outcome;
  read_back : DataFrame -> DataFrame
}.

Arguments Storage {P} open_error pickle_dump read_back.
Arguments open_error {P} s path.
Arguments pickle_dump {P} s problem.
Arguments read_back {P} s df.

Section Cache.

Context {P : Type}.
(** Python's formatting of a float inside an f-string. *)
Variable str_float : scalar -> string.
Variable disk : storage P.

(** [f"{filename}"] *)
Definition str_filename (filename : option cell) : string :=
  match filename with
  | None => "None"
  | Some Missing => str_float NaN
  | Some (Cell (VStr s)) => s
  | Some (Cell (VInt n)) => pretty n
  | Some (Cell (VNum q)) => str_float (Fin q)
  end.

(** The filtering loop of [find_saved_problem]:
<<
    for col, val in kwargs.items():
        if col in relevant_models.columns:
            relevant_models = relevant_models.loc[relevant_models[col] == val]
>> *)
Definition relevant_rows (cols : list string) (kwargs : gmap string value)
    (rs : list (gmap string value)) : list (gmap string value) :=
  foldl (fun relevant '(col, val) =>
           if bool_decide (col ∈ cols) then loc_eq col val relevant else relevant)
        rs (map_to_list kwargs).

(** [find_saved_problem(master_filename, kwargs)]:
<<
    if os.path.exists(master_filename):
        with open(master_filename, 'r') as file:
            saved_probs = pd.read_csv(file)
    else:
        saved_probs = pd.DataFrame(columns=('filename', *kwargs.keys(),))
    relevant_models = saved_probs
    (the filtering loop)
    filename = None
    if not relevant_models.empty:
        filename = relevant_models['filename'].values[0]
    return filename, saved_probs
>>
    When there is no file and [kwargs] has a key named [filename], the frame
    built has two columns of that label; in the loop
    [relevant_models['filename']] is then a frame, not a column, and [.loc]
    raises [ValueError].  Nothing is printed or written before the loop, so
    the exception is raised where the frame is built. *)
Definition find_saved_problem (fs : gmap string (file P)) (master_filename : string)
    (kwargs : gmap string value) : result (option cell * DataFrame) :=
  saved_probs ← match fs !! master_filename with
                | Some (CsvFile df) => Ok df
                | Some _ => Raise ParserError
                | None =>
                    if bool_decide (is_Some (kwargs !! "filename"))
                    then Raise ValueError
                    else Ok (empty_frame ("filename" :: (map_to_list kwargs).*1))
                end;
  let relevant_models :=
    MkDataFrame (columns saved_probs)
                (relevant_rows (columns saved_probs) kwargs (rows saved_probs)) in
  if negb (df_empty relevant_models) then
    if bool_decide ("filename" ∈ columns relevant_models) then
      match rows relevant_models with
      | r :: _ => Ok (Some (get_cell r "filename"), saved_probs)
      | [] => Raise IndexError
      end
    else Raise KeyError
  else Ok (None, saved_probs).

(** [pickle.load] on [open(filename, 'rb')], for the [filename] read out of
    the index. *)
Definition load_pickle (fs : gmap string (file P)) (filename : cell) : result P :=
  match filename with
  | Cell (VStr path) =>
      match fs !! path with
      | Some (PickleFile p) => Ok p
      | Some _ => Raise UnpicklingError
      | None => Raise FileNotFoundError
      end
  | Cell (VInt _) => Raise OSError
  | _ => Raise TypeError
  end.

(** The state the function works on: the caller's [kwargs] dictionary, the
    file system and the standard output. *)
Definition cache_state : Type := gmap string value * gmap string (file P) * stdio.

(** The function that [@lock] decorates:
<<
    master_filename = os.path.join(folder, f"{problem_cls.__name__}.csv")
    filename, saved_probs = find_saved_problem(master_filename, kwargs)
    print(f"Problem Saved as: {filename}")
    if not load_new and filename is not None:
        with open(filename, 'rb') as file:
            problem = pickle.load(file)
    else:
        problem = problem_cls( **kwargs)
        print("Saving the problem")
        filename = os.path.join(folder, f"{problem_cls.__name__}_{len(saved_probs)}.pkl")
        with open(filename, 'wb') as file:
            pickle.dump(problem, file)
        kwargs['filename'] = filename
        saved_probs = pd.concat([saved_probs, pd.DataFrame.from_dict([kwargs])])
        with open(master_filename, 'w') as file:
            saved_probs.to_csv(file, index=False)
    return problem
>>
    The save can fail at three points: opening the pickle file (nothing is
    changed yet), dumping the instance (the file has been created, and is
    left with what was written), opening the index (the pickle file is
    written and [kwargs] has its new key).  The index file ends up holding
    the table as it reads back. *)
Definition init_if_not_saved_body (problem_cls : problem_class P) (folder : string)
    (load_new : bool) (st : cache_state) : result P * cache_state :=
  let '(kwargs, fs, io) := st in
  let master_filename := os_path_join folder (cls_name problem_cls +:+ ".csv") in
  match find_saved_problem fs master_filename kwargs with
  | Raise e => (Raise e, st)
  | Ok (filename, saved_probs) =>
      let io1 := print_ ("Problem Saved as: " +:+ str_filename filename) io in
      match negb load_new, filename with
      | true, Some found => (load_pickle fs found, (kwargs, fs, io1))
      | _, _ =>
          match cls_init problem_cls kwargs with
          | Raise e => (Raise e, (kwargs, fs, io1))
          | Ok problem =>
              let io2 := print_ "Saving the problem" io1 in
              let filename :=
                os_path_join folder
                  (cls_name problem_cls +:+ "_" +:+ pretty (length (rows saved_probs))
                     +:+ ".pkl") in
              match open_error disk filename with
              | Some e => (Raise e, (kwargs, fs, io2))
              | None =>
                  match pickle_dump disk problem with
                  | DumpFails e partial =>
                      (Raise e, (kwargs, <[filename := OtherFile partial]> fs, io2))
                  | Dumped =>
                      let fs1 := <[filename := PickleFile problem]> fs in
                      let kwargs' := <["filename" := VStr filename]> kwargs in
                      let saved_probs' := concat saved_probs (from_dict kwargs') in
                      match open_error disk master_filename with
                      | Some e => (Raise e, (kwargs', fs1, io2))
                      | None =>
                          let fs2 :=
                            <[master_filename := CsvFile (read_back disk saved_probs')]>
                              fs1 in
                          (Ok problem, (kwargs', fs2, io2))
                      end
                  end
              end
          end
      end
  end.

(** [init_if_not_saved], the decorated function. *)
Definition init_if_not_saved (problem_cls : problem_class P) (folder : string)
    (load_new : bool) (st : cache_state) (l : flock_state)
    : option (result P * cache_state * flock_state) :=
  lock (init_if_not_saved_body problem_cls folder load_new) st l.

End Cache.

(** ** The [View] module *)

(** An instance of [class View(torch.nn.Module)]: the target shape of the last
    dimension. *)
Record View : Type := MkView {
  view_shape : list Z   (* self.shape *)
}.

(** [View.forward]:
<<
    batch_size = input.shape[:-1]
    shape = ( *batch_size, *self.shape)
    out = input.view(shape)
    return out
>> *)
Definition View_forward {A} (self : View) (input : tensor A) : result (tensor A) :=
  let batch_size := removelast (shape input) in
  let shape := (Z.of_nat <$> batch_size) ++ view_shape self in
  Torch.view shape input.

(** ** Printed lines *)

(** A text without any of the line boundaries of [str.splitlines]. *)
Fixpoint no_line_break (s : string) : bool :=
  match s with
  | EmptyString => true
  | String c s' => negb (is_CR c) && negb (is_linebreak c) && no_line_break s'
  end.

(** [for line in lines: print(line)] *)
Definition print_lines (lines : list string) (io : stdio) : stdio :=
  foldl (fun io line => print_ line io) io lines.

(** The text these prints write. *)
Definition lines_text (lines : list string) : string :=
  foldr (fun line text => line +:+ newline +:+ text) "" lines.

(** A function that prints [lines] and ends with the outcome [r]. *)
Definition prints_then {A} (lines : list string) (r : result A)
    : stdio -> result A * stdio :=
  fun io => (r, print_lines lines io).


(** ** Moving a problem's tensors to the device *)

Inductive device : Type :=
| Cpu
| Cuda0.

(** The value of an attribute: a routine (a method or a function), a tensor
    on a device, or any other value. *)
Inductive attr (V : Type) : Type :=
| Routine
| TensorAttr (d : device) (t : tensor Qc)
| Other (v : V).

Arguments Routine {V}.
Arguments TensorAttr {V} d t.
Arguments Other {V} v.

(** An object with plain attributes: those of its class, and its own
    [__dict__], which comes first when an attribute is read. *)
Record object (V : Type) : Type := Object {
  class_attrs : gmap string (attr V);
  inst_dict : gmap string (attr V)     (* problem.__dict__ *)
}.

Arguments Object {V} class_attrs inst_dict.
Arguments class_attrs {V} o.
Arguments inst_dict {V} o.

Section MoveToGpu.

Context {V : Type}.

(** [getattr(o, key)] *)
Definition getattr (o : object V) (key : string) : option (attr V) :=
  (inst_dict o ∪ class_attrs o) !! key.

(** [inspect.isroutine] *)
Definition isroutine (a : attr V) : bool :=
  match a with
  | Routine => true
  | _ => false
  end.

(** [inspect.getmembers(o, lambda a: not(inspect.isroutine(a)))]: the names
    of [dir(o)], each once, with the value [getattr] gives, for the values
    the predicate keeps. *)
Definition getmembers (o : object V) : list (string * attr V) :=
  filter (fun kv => isroutine kv.2 = false) (map_to_list (inst_dict o ∪ class_attrs o)).

(** [move_to_gpu]:
<<
    device = torch.device("cuda:0" if torch.cuda.is_available() else "cpu")
    for key, value in inspect.getmembers(problem, lambda a:not(inspect.isroutine(a))):
        if isinstance(value, torch.Tensor):
            problem.__dict__[key] = value.to(device)
>> *)
Definition move_to_gpu (cuda_is_available : bool) (problem : object V) : object V :=
  let device := if cuda_is_available then Cuda0 else Cpu in
  foldl (fun problem '(key, value) =>
           match value with
           | TensorAttr _ t =>
               Object (class_attrs problem)
                      (<[key := TensorAttr device t]> (inst_dict problem))
           | _ => problem
           end)
        problem (getmembers problem).

End MoveToGpu.
(** * The vocabulary of the statements

    Names for what the properties below talk about. *)

Section MetricsVocabulary.

Context {aux dec : Type}.
Variable model : tensor Qc -> tensor Qc.
Variable problem : problem_t aux dec.

(** The objectives [print_metrics] computes for a partition named test. *)
Definition test_objectives (Xs Ys : tensor Qc) (Ys_aux : list aux) : tensor Qc :=
  get_objective problem Ys
    (get_decision problem (Torch.squeeze_all (model Xs)) Ys_aux false) Ys_aux.

(** What is reported for it: the mean objective, the mean of an all-zeros
    tensor, and the mean absolute value of the objectives. *)
Definition test_metric (Xs Ys : tensor Qc) (Ys_aux : list aux) : metric :=
  let o := test_objectives Xs Ys Ys_aux in
  Metric (Torch.mean o) (Torch.mean (Torch.zeros_like o)) (Torch.mean (Torch.map Qcabs o)).

End MetricsVocabulary.

Section CaptureVocabulary.

Context {A : Type}.
Variable body : stdio -> result A * stdio.

(** The state in which the body starts, its outcome and the state it leaves. *)
Definition scope_entry (io : stdio) : stdio := snd (Capturing_enter Capturing_new io).
Definition body_outcome (io : stdio) : result A := fst (body (scope_entry io)).
Definition body_exit (io : stdio) : stdio := snd (body (scope_entry io)).

End CaptureVocabulary.

(** A row passes the filter of [find_saved_problem] when it equals [kwargs]
    on every key of [kwargs] that is a column. *)
Definition row_matches (cols : list string) (kwargs : gmap string value)
    (r : gmap string value) : Prop :=
  map_Forall (fun col val => col ∈ cols -> cell_eq (get_cell r col) val = true) kwargs.

#[global] Instance row_matches_dec cols kwargs r : Decision (row_matches cols kwargs r).
Proof. unfold row_matches. apply _. Defined.

Section CacheVocabulary.

Context {P : Type}.
Variable str_float : scalar -> string.
Variable disk : storage P.
Variable problem_cls : problem_class P.
Variable folder : string.

(** The index file of the class, and the file of its [n]-th pickled
    instance. *)
Definition master_path : string :=
  os_path_join folder (cls_name problem_cls +:+ ".csv").

Definition pickle_path (n : nat) : string :=
  os_path_join folder (cls_name problem_cls +:+ "_" +:+ pretty n +:+ ".pkl").

(** The text printed on the two paths. *)
Definition io_found (filename : option cell) (io : stdio) : stdio :=
  print_ ("Problem Saved as: " +:+ str_filename str_float filename) io.

Definition io_saved (filename : option cell) (io : stdio) : stdio :=
  print_ "Saving the problem" (io_found filename io).

(** The table written when an instance is saved next to the index
    [saved_probs]: one more row, the caller's [kwargs] with its new key. *)
Definition written_table (saved_probs : DataFrame) (kwargs : gmap string value)
    : DataFrame :=
  concat saved_probs
    (from_dict (<["filename" := VStr (pickle_path (length (rows saved_probs)))]> kwargs)).

(** The save goes through: both files can be opened for writing and the
    instance can be pickled. *)
Definition save_succeeds (saved_probs : DataFrame) (problem : P) : Prop :=
  open_error disk (pickle_path (length (rows saved_probs))) = None
  /\ pickle_dump disk problem = Dumped
  /\ open_error disk master_path = None.

(** A table reads back as written: no cell is retyped, no label renamed. *)
Definition reads_back (df : DataFrame) : Prop := read_back disk df = df.

(** The state after building and saving [problem] next to the index
    [saved_probs]. *)
Definition saved_state (saved_probs : DataFrame) (problem : P)
    (kwargs : gmap string value) (fs : gmap string (file P))
    : gmap string value * gmap string (file P) :=
  let filename := pickle_path (length (rows saved_probs)) in
  let kwargs' := <["filename" := VStr filename]> kwargs in
  (kwargs',
   <[master_path := CsvFile (read_back disk (concat saved_probs (from_dict kwargs')))]>
     (<[filename := PickleFile problem]> fs)).

End CacheVocabulary.

Section StoreVocabulary.

Context {P : Type}.
Variable problem_cls : problem_class P.
Variable folder : string.

(** A consistent store: the index file, when there is one, is a table with a
    [filename] column, and no pickle file of the class is numbered from the
    number of its rows on, so that the next file name is unused. *)
Definition store_ok (fs : gmap string (file P)) : Prop :=
  match fs !! master_path problem_cls folder with
  | Some (CsvFile df) =>
      "filename" ∈ columns df
      /\ forall n, length (rows df) <= n -> fs !! pickle_path problem_cls folder n = None
  | Some _ => False
  | None => forall n, fs !! pickle_path problem_cls folder n = None
  end.

(** The index names saved instances: every row of the index has, in its
    [filename] cell, the path of a file that holds a pickled instance. *)
Definition index_names_instances (fs : gmap string (file P)) : Prop :=
  forall df r,
    fs !! master_path problem_cls folder = Some (CsvFile df) ->
    r ∈ rows df ->
    exists path p, r !! "filename" = Some (VStr path) /\ fs !! path = Some (PickleFile p).

End StoreVocabulary.

(** * Test data

    Concrete inputs on which the functions are run below. *)

(** A value tensor of shape (4,5,6) whose entry at [(i,j,k)] is the number
    written [ijk] in base ten, and an index tensor of shape (4,). *)
Definition value456 : tensor Z :=
  Tensor [4; 5; 6] (fun idx => match idx with
                               | [i; j; k] => Z.of_nat (100 * i + 10 * j + k)
                               | _ => 0%Z
                               end).

Definition index4 : tensor Z :=
  Tensor [4] (fun idx => match idx with
                         | [i] => Z.of_nat i
                         | _ => 0%Z
                         end).

(** A solver for two equations in two unknowns by Cramer's rule, which, like
    the library's, raises on a singular matrix. *)
Definition at1 (b : tensor Qc) (i : nat) : Qc := elem b [i].
Definition at2 (A : tensor Qc) (i j : nat) : Qc := elem A [i; j].

Definition det2 (A : tensor Qc) : Qc :=
  (at2 A 0 0 * at2 A 1 1 - at2 A 0 1 * at2 A 1 0)%Qc.

Definition cramer_solve (A b : tensor Qc) : result (tensor Qc) :=
  if bool_decide (shape A = [2; 2]) && bool_decide (shape b = [2]) then
    if Qc_eq_bool (det2 A) 0 then Raise LinAlgError
    else Ok (Tensor [2] (fun idx =>
               match idx with
               | [0] => ((at1 b 0 * at2 A 1 1 - at2 A 0 1 * at1 b 1) / det2 A)%Qc
               | [1] => ((at2 A 0 0 * at1 b 1 - at1 b 0 * at2 A 1 0) / det2 A)%Qc
               | _ => 0%Qc
               end))
  else Raise RuntimeError.

(** The singular matrix [[1, 2], [2, 4]] and the right-hand side [1, 1]. *)
Definition singular22 : tensor Qc :=
  Tensor [2; 2] (fun idx => match idx with
                            | [0; 0] => 1%Qc
                            | [0; 1] | [1; 0] => Q2Qc 2
                            | [1; 1] => Q2Qc 4
                            | _ => 0%Qc
                            end).

Definition ones2 : tensor Qc := Tensor [2] (fun _ => 1%Qc).

Definition eps5 : Qc := Q2Qc (1 # 100000).

(** A predictor that returns its input, a problem whose decision is the
    prediction and whose objective is the decision, and a loss that returns
    the prediction. *)
Definition model_id (x : tensor Qc) : tensor Qc := x.

Definition problem_id : problem_t unit (tensor Qc) :=
  Problem unit (tensor Qc) (fun pred _ _ => pred) (fun _ Zs _ => Zs).

Definition loss_pred (pred _ : tensor Qc) (_ : unit) (_ : string) (_ : nat) : tensor Qc :=
  pred.

Definition str_any (_ : scalar) : string := "?".

Definition vector (l : list Qc) : tensor Qc :=
  Tensor [length l] (fun idx => match idx with
                                | [i] => default 0%Qc (l !! i)
                                | _ => 0%Qc
                                end).

Definition data_train : dataset unit :=
  (vector [Q2Qc 1; Q2Qc 2], vector [Q2Qc 1; Q2Qc 2], [(); ()], "train").

Definition data_test : dataset unit :=
  (vector [Q2Qc 1; Q2Qc 3], vector [Q2Qc 1; Q2Qc 3], [(); ()], "test").

(** A test partition whose single objective is -1. *)
Definition data_test_neg : dataset unit :=
  (vector [Q2Qc (-1)], vector [Q2Qc (-1)], [()], "test").

(** A body that prints two lines and returns, and one that prints a line and
    raises. *)
Definition body_prints (io : stdio) : result nat * stdio :=
  (Ok 7, print_ "second" (print_ "first" io)).

Definition body_raises (io : stdio) : result nat * stdio :=
  (Raise ValueError, print_ "before the error" io).

(** An index with two rows, for learning rates 0.3 and 0.5. *)
Definition index2 : DataFrame :=
  MkDataFrame ["filename"; "lr"]
    [ {[ "filename" := VStr "models/P_0.pkl"; "lr" := VNum (Q2Qc (3 # 10)) ]};
      {[ "filename" := VStr "models/P_1.pkl"; "lr" := VNum (Q2Qc (5 # 10)) ]} ].

Definition fs2 : gmap string (file unit) := {[ "models/P.csv" := CsvFile index2 ]}.

(** A problem class named [P] whose instances are the keyword arguments they
    were built from. *)
Definition class_P : problem_class (gmap string value) :=
  ProblemClass (gmap string value) "P" (fun kwargs => Ok kwargs).

Definition kwargs_a : gmap string value := {[ "a" := VInt 1 ]}.

Definition no_lock : flock_state := Flock ∅ None.

(** An index with one row, for [a = 1], and the pickle file it names. *)
Definition index_a : DataFrame :=
  MkDataFrame ["filename"; "a"] [ {[ "filename" := VStr "models/P_0.pkl"; "a" := VInt 1 ]} ].

Definition fs_a : gmap string (file (gmap string value)) :=
  {[ "models/P.csv" := CsvFile index_a; "models/P_0.pkl" := PickleFile kwargs_a ]}.

Definition kwargs_ab : gmap string value := {[ "a" := VInt 1; "b" := VInt 2 ]}.

(** A class whose constructor raises. *)
Definition class_failing : problem_class unit :=
  ProblemClass unit "P" (fun _ => Raise ValueError).

(** A disk on which every file can be written and every instance pickled,
    and from which a table reads back as written. *)
Definition disk_fine {P : Type} : storage P :=
  Storage (fun _ => None) (fun _ => Dumped) (fun df => df).

(** A disk without the folder: no file can be created. *)
Definition disk_no_folder {P : Type} : storage P :=
  Storage (fun _ => Some FileNotFoundError) (fun _ => Dumped) (fun df => df).

(** A disk on which instances cannot be pickled: [pickle.dump] raises and
    leaves an empty file. *)
Definition disk_no_pickle {P : Type} : storage P :=
  Storage (fun _ => None) (fun _ => DumpFails AttributeError "") (fun df => df).

(** A disk from which the text [1] reads back as the integer 1. *)
Definition retype_1 (v : value) : value :=
  match v with
  | VStr s => if String.eqb s "1" then VInt 1 else VStr s
  | _ => v
  end.

Definition disk_retyping {P : Type} : storage P :=
  Storage (fun _ => None) (fun _ => Dumped)
    (fun df => MkDataFrame (columns df)
                 ((fun r : gmap string value => retype_1 <$> r) <$> rows df)).

Definition kwargs_a2 : gmap string value := {[ "a" := VInt 2 ]}.

Definition kwargs_name1 : gmap string value := {[ "name" := VStr "1" ]}.

(** A train partition without samples. *)
Definition data_train_empty : dataset unit :=
  (vector [], vector [], [], "train").

(** The absolute error of a prediction without dimensions. *)
Definition loss_abs (pred y : tensor Qc) (_ : unit) (_ : string) (_ : nat) : tensor Qc :=
  Tensor [] (fun _ => Qcabs (elem pred [] - elem y [])).

(** * Properties *)

(** ** Tensor facts *)

Lemma indices_in_bounds (sh idx : list nat) :
  idx ∈ indices sh -> Forall2 lt idx sh.
Proof.
  revert idx. induction sh as [|d sh IH]; intros idx; simpl.
  - intros ->%list_elem_of_singleton. constructor.
  - intros (i & (idx' & -> & Hidx')%list_elem_of_fmap & Hi%elem_of_seq)%list_elem_of_bind.
    constructor; [lia | by apply IH].
Qed.

Lemma bcast_index_in_bounds (sh idx : list nat) :
  Forall2 lt idx sh -> Torch.bcast_index sh idx = idx.
Proof.
  intros H. unfold Torch.bcast_index.
  rewrite (Forall2_length _ _ _ H), Nat.sub_diag, drop_0.
  induction H as [|i d idx sh Hid _ IH]; simpl; [reflexivity |].
  rewrite IH. destruct (Nat.eqb_spec d 1) as [-> | _]; [| reflexivity].
  by replace i with 0 by lia.
Qed.

Lemma broadcast_rev_same (r : list nat) : Torch.broadcast_rev r r = Ok r.
Proof.
  induction r as [|d r IH]; simpl; [reflexivity |].
  by rewrite Nat.eqb_refl, IH.
Qed.

Lemma broadcast_shapes_same (sh : list nat) : Torch.broadcast_shapes sh sh = Ok sh.
Proof.
  unfold Torch.broadcast_shapes. rewrite broadcast_rev_same. simpl.
  by rewrite reverse_involutive.
Qed.

Lemma entries_ext {A} (a b : tensor A) :
  shape a = shape b ->
  (forall idx, idx ∈ indices (shape a) -> elem a idx = elem b idx) ->
  entries a = entries b.
Proof.
  intros Hsh Hel. unfold entries. rewrite <- Hsh.
  apply list_fmap_ext. intros _ idx Hidx%list_elem_of_lookup_2. by apply Hel.
Qed.

Lemma mean_ext (a b : tensor Qc) :
  shape a = shape b ->
  (forall idx, idx ∈ indices (shape a) -> elem a idx = elem b idx) ->
  Torch.mean a = Torch.mean b.
Proof.
  intros Hsh Hel. unfold Torch.mean, numel.
  rewrite (entries_ext a b Hsh Hel), Hsh. reflexivity.
Qed.

Lemma Qcsum_zeros {A} (l : list A) : Torch.Qcsum ((fun _ => 0%Qc) <$> l) = 0%Qc.
Proof.
  unfold Torch.Qcsum. induction l as [|x l IH]; [reflexivity |].
  rewrite fmap_cons. cbn [foldr]. rewrite IH. ring.
Qed.

Lemma mean_zeros_like (t : tensor Qc) :
  numel t ≠ 0 -> Torch.mean (Torch.zeros_like t) = Fin 0.
Proof.
  intros Hn. unfold Torch.mean, numel in *. simpl.
  destruct (length (indices (shape t))) as [|n] eqn:E; [done |].
  unfold entries. simpl. rewrite Qcsum_zeros. f_equal. unfold Qcdiv. ring.
Qed.

Lemma mean_empty (t : tensor Qc) : numel t = 0 -> Torch.mean t = NaN.
Proof. intros Hn. unfold Torch.mean. by rewrite Hn. Qed.

(** The mean absolute difference between an all-zeros tensor and the negated
    objectives is the mean of the absolute values of the objectives. *)
Lemma L1Loss_zeros_neg (o : tensor Qc) :
  Torch.L1Loss (Torch.zeros_like o) (Torch.neg o) = Ok (Torch.mean (Torch.map Qcabs o)).
Proof.
  unfold Torch.L1Loss, Torch.map2. simpl. rewrite broadcast_shapes_same. simpl.
  f_equal. apply mean_ext; [reflexivity |]. simpl. intros idx Hidx.
  rewrite bcast_index_in_bounds by by apply indices_in_bounds.
  f_equal. ring.
Qed.

Lemma mean_abs_nonneg (o : tensor Qc) :
  (forall idx, idx ∈ indices (shape o) -> (0 <= elem o idx)%Qc) ->
  Torch.mean (Torch.map Qcabs o) = Torch.mean o.
Proof.
  intros Hpos. apply mean_ext; [reflexivity |]. simpl. intros idx Hidx.
  apply Qcabs_pos. by apply Hpos.
Qed.

(** ** Shape helpers *)

Section TrimLeft.

Context {A : Type}.

Lemma trim_left_from_ones (sh : list nat) (f : list nat -> A) :
  Forall (fun d => d = 1) sh -> trim_left_from sh f = Raise IndexError.
Proof.
  intros Hall. revert f.
  induction Hall as [|d sh -> _ IH]; intros f; simpl; [reflexivity | apply IH].
Qed.

Lemma trim_left_from_other (sh : list nat) (f : list nat -> A) :
  Exists (fun d => d ≠ 1) sh ->
  exists r d sh', trim_left_from sh f = Ok r /\ shape r = d :: sh' /\ d ≠ 1.
Proof.
  revert f. induction sh as [|d sh IH]; intros f Hex.
  - inversion Hex.
  - simpl. destruct (Nat.eqb_spec d 1) as [-> | Hd].
    + apply IH. inversion Hex; subst; [congruence | assumption].
    + exists (Tensor (d :: sh) f), d, sh. auto.
Qed.

Lemma ones_or_other (sh : list nat) :
  Forall (fun d => d = 1) sh \/ Exists (fun d => d ≠ 1) sh.
Proof.
  induction sh as [|d sh [IH | IH]]; [left; constructor | | right; by constructor 2].
  destruct (decide (d = 1)); [left | right]; by constructor.
Qed.

(** The result is the input with its leading dimensions of size 1 taken
    off, read at index 0 along each of them. *)
Lemma trim_left_from_shape (sh : list nat) (f : list nat -> A) (r : tensor A) :
  trim_left_from sh f = Ok r ->
  exists k, sh = replicate k 1 ++ shape r
            /\ forall idx, elem r idx = f (replicate k 0 ++ idx).
Proof.
  revert f. induction sh as [|d sh IH]; intros f; simpl; [discriminate |].
  destruct (Nat.eqb_spec d 1) as [-> | Hd].
  - intros Hr. destruct (IH _ Hr) as (k & -> & Hel).
    exists (S k). split; [reflexivity | intros idx; apply Hel].
  - intros [= <-]. exists 0. split; reflexivity.
Qed.

(** C10. [trim_left] raises ([IndexError], from reading [shape[0]] of a
    tensor without dimensions) on every tensor all of whose dimensions have
    size 1; it returns exactly when some dimension has a size other than 1,
    and the first dimension of what it returns then has a size other than 1. *)
Theorem trim_left_all_ones_raises (t : tensor A) :
  (Forall (fun d => d = 1) (shape t) -> trim_left t = Raise IndexError)
  /\ ((exists r, trim_left t = Ok r) <-> Exists (fun d => d ≠ 1) (shape t))
  /\ (forall r, trim_left t = Ok r -> exists d sh, shape r = d :: sh /\ d ≠ 1).
Proof.
  unfold trim_left. split; [apply trim_left_from_ones |]. split; [split |].
  - intros [r Hr]. destruct (ones_or_other (shape t)) as [H1 | H1]; [| exact H1].
    rewrite (trim_left_from_ones _ _ H1) in Hr. discriminate.
  - intros Hex. destruct (trim_left_from_other _ (elem t) Hex) as (r & _ & _ & Hr & _).
    by exists r.
  - intros r Hr. destruct (ones_or_other (shape t)) as [H1 | H1].
    + rewrite (trim_left_from_ones _ _ H1) in Hr. discriminate.
    + destruct (trim_left_from_other _ (elem t) H1) as (r' & d & sh & Hr' & Hsh & Hd).
      rewrite Hr in Hr'. injection Hr' as ->. eauto.
Qed.

End TrimLeft.

(** The shapes named in the claim. *)
Example trim_left_1 : trim_left (Tensor [1] (fun _ => 0%Z)) = Raise IndexError.
Proof. reflexivity. Qed.

Example trim_left_11 : trim_left (Tensor [1; 1] (fun _ => 0%Z)) = Raise IndexError.
Proof. reflexivity. Qed.

Example trim_left_111 : trim_left (Tensor [1; 1; 1] (fun _ => 0%Z)) = Raise IndexError.
Proof. reflexivity. Qed.

Example trim_left_1113 :
  shape <$> trim_left (Tensor [1; 1; 1; 3] (fun idx => idx)) = Ok [3].
Proof. reflexivity. Qed.

Example trim_left_23 (f : list nat -> Z) :
  trim_left (Tensor [2; 3] f) = Ok (Tensor [2; 3] f).
Proof. reflexivity. Qed.

Section GatherIncompleteLeft.

Context {A : Type}.

Lemma forallb_indices (sh : list nat) (p : list nat -> bool) :
  (forall idx, Forall2 lt idx sh -> p idx = true) ->
  forallb p (indices sh) = true.
Proof.
  intros Hp. apply forallb_forall. intros idx Hin%list_elem_of_In.
  by apply Hp, indices_in_bounds.
Qed.

Lemma expand_dim_one (p : nat) : Torch.expand_dim 1 (Z.of_nat p) = Ok p.
Proof.
  unfold Torch.expand_dim.
  destruct (Z.eqb_spec (Z.of_nat p) (-1)) as [? | _]; [lia |].
  destruct (Z.ltb_spec (Z.of_nat p) 0) as [? | _]; [lia |].
  destruct (Z.eqb_spec (Z.of_nat 1) (Z.of_nat p)) as [Hp | _].
  - f_equal. lia.
  - simpl. f_equal. lia.
Qed.

Lemma expand_dim_keep (d : nat) : Torch.expand_dim d (-1) = Ok d.
Proof. reflexivity. Qed.

Lemma bcast_index_n11 (n i j k : nat) :
  i < n -> take 1 (Torch.bcast_index [n; 1; 1] [i; j; k]) = [i].
Proof.
  intros Hi. unfold Torch.bcast_index. simpl.
  destruct (Nat.eqb_spec n 1) as [-> | _]; [| reflexivity].
  by replace i with 0 by lia.
Qed.

(** The index of rank 1 selects, for each [i], the slice [value[i, index[i], :]]
    of a value tensor of rank 3. *)
Lemma gather_incomplete_left_rank1 (n m p : nat) (value : tensor A) (index : tensor Z) :
  shape value = [n; m; p] ->
  shape index = [n] ->
  (forall i, i < n -> (0 <= elem index [i] < Z.of_nat m)%Z) ->
  exists r, gather_incomplete_left value index = Ok r
            /\ shape r = [n; p]
            /\ forall i k, i < n -> k < p ->
                 elem r [i; k] = elem value [i; Z.to_nat (elem index [i]); k].
Proof.
  destruct value as [vsh v], index as [ish ix]. cbn [shape elem]. intros -> -> Hix.
  unfold gather_incomplete_left, Torch.expand, Torch.unsqueeze_right, ndim.
  cbn [shape elem length replicate Nat.add Nat.sub app drop fmap list_fmap
       Nat.ltb Nat.leb take mapM_result Torch.expand_dims].
  rewrite expand_dim_one, !expand_dim_keep. cbn [mbind result_bind app].
  unfold Torch.gather, ndim.
  cbn [shape elem length lookup list_lookup Nat.eqb negb Torch.gather_sizes_ok
       zip zip_with forallb fst snd].
  rewrite !Nat.leb_refl. cbn [andb negb].
  rewrite forallb_indices.
  - cbn [negb mbind result_bind]. unfold Torch.squeeze.
    cbn [shape elem lookup list_lookup Nat.eqb delete list_delete].
    eexists. split; [reflexivity |]. split; [reflexivity |].
    intros i k Hi Hk. cbn [elem take drop app insert list_insert].
    by rewrite bcast_index_n11.
  - intros idx Hidx.
    inversion Hidx as [|i ? idx1 ? Hi H1]; subst.
    inversion H1 as [|j ? idx2 ? Hj H2]; subst.
    inversion H2 as [|k ? idx3 ? Hk H3]; subst. inversion H3; subst.
    cbn [elem]. rewrite bcast_index_n11 by done. destruct (Hix i Hi) as [H0 Hm].
    apply andb_true_intro. split; [by apply Z.leb_le | by apply Z.ltb_lt].
Qed.
(** The amended C6 (see [gather_incomplete_left_456_not_45]): for a value
    tensor of shape (4,5,6) and an index tensor of shape (4,) with entries in
    [0,5), [gather_incomplete_left] returns a tensor of shape (4,6) with
    [result[i,k] = value[i, index[i], k]]: the index selects along the
    dimension right after its own, which is the second one. *)
Theorem gather_incomplete_left_456 (value : tensor A) (index : tensor Z) :
  shape value = [4; 5; 6] ->
  shape index = [4] ->
  (forall i, i < 4 -> (0 <= elem index [i] < 5)%Z) ->
  exists r, gather_incomplete_left value index = Ok r
            /\ shape r = [4; 6]
            /\ forall i k, i < 4 -> k < 6 ->
                 elem r [i; k] = elem value [i; Z.to_nat (elem index [i]); k].
Proof.
  intros Hvalue Hindex Hrange.
  exact (gather_incomplete_left_rank1 4 5 6 value index Hvalue Hindex Hrange).
Qed.

End GatherIncompleteLeft.

Lemma gather_incomplete_left_456_witness :
  exists r, gather_incomplete_left value456 index4 = Ok r
            /\ shape r = [4; 6]
            /\ forall i k, i < 4 -> k < 6 ->
                 elem r [i; k] = elem value456 [i; Z.to_nat (elem index4 [i]); k].
Proof.
  apply (gather_incomplete_left_456 value456 index4); [reflexivity | reflexivity |].
  intros i Hi. simpl. lia.
Defined.

(** C6 as stated fails: on [value456] and [index4] (shape (4,5,6), shape (4,),
    entries 0..3 in [0,6)) the result does not have shape (4,5), so it is not
    the tensor [result[i,j] = value[i,j,index[i]]]. *)
Lemma gather_incomplete_left_456_not_45 :
  ~ exists r, gather_incomplete_left value456 index4 = Ok r
              /\ shape r = [4; 5]
              /\ forall i j, i < 4 -> j < 5 ->
                   elem r [i; j] = elem value456 [i; j; Z.to_nat (elem index4 [i])].
Proof.
  intros (r & Hr & Hsh & _).
  assert (Hs : shape <$> gather_incomplete_left value456 index4 = Ok [4; 6])
    by reflexivity.
  rewrite Hr in Hs. simpl in Hs. congruence.
Qed.

(** What it computes there: row [i] is the slice [value[i, i, :]]. *)
Example gather_incomplete_left_456_entries :
  (fun r => (shape r, entries r)) <$> gather_incomplete_left value456 index4
  = Ok ([4; 6],
        [0; 1; 2; 3; 4; 5; 110; 111; 112; 113; 114; 115;
         220; 221; 222; 223; 224; 225; 330; 331; 332; 333; 334; 335]%Z).
Proof. reflexivity. Qed.

(** An index entry equal to 5, allowed by the range [0,6) of the claim, is out
    of bounds for the gathered dimension, of size 5. *)
Example gather_incomplete_left_456_index5 :
  gather_incomplete_left value456 (Tensor [4] (fun _ => 5%Z)) = Raise RuntimeError.
Proof. reflexivity. Qed.

(** ** Linear solve *)

Section SolveLineqn.

Variable linalg_solve : tensor Qc -> tensor Qc -> result (tensor Qc).

Lemma broadcast_square (n : nat) : Torch.broadcast_shapes [n; n] [n; n] = Ok [n; n].
Proof.
  unfold Torch.broadcast_shapes. simpl. rewrite Nat.eqb_refl. reflexivity.
Qed.

Lemma bcast_index_square (n i j : nat) :
  i < n -> j < n -> Torch.bcast_index [n; n] [i; j] = [i; j].
Proof.
  intros Hi Hj. unfold Torch.bcast_index. simpl.
  destruct (Nat.eqb_spec n 1) as [-> | _]; [| reflexivity].
  by replace i with 0 by lia; replace j with 0 by lia.
Qed.

(** C7. When the solver raises a [RuntimeError] on a square matrix [A],
    [solve_lineqn] does not raise on that failure: it prints the warning and
    returns what the solver gives for [A + eps * I] and [b], whether a
    solution or an exception, which then goes on to the caller. *)
Theorem solve_lineqn_retries_once (A b : tensor Qc) (eps : Qc) (io : stdio)
    (n : nat) (e : exn) :
  shape A = [n; n] ->
  linalg_solve A b = Raise e ->
  is_RuntimeError e = true ->
  exists A',
    shape A' = [n; n]
    /\ (forall i j, i < n -> j < n ->
          elem A' [i; j] = (elem A [i; j] + eps * (if i =? j then 1 else 0))%Qc)
    /\ solve_lineqn linalg_solve A b eps io
       = (linalg_solve A' b, print_ "WARNING: The matrix was singular" io)
    /\ (forall e', linalg_solve A' b = Raise e' ->
          fst (solve_lineqn linalg_solve A b eps io) = Raise e').
Proof.
  intros Hsh Hfail Hrt.
  unfold solve_lineqn. rewrite Hfail, Hrt, Hsh. simpl.
  unfold Torch.add, Torch.map2. rewrite Hsh. simpl shape.
  rewrite broadcast_square. simpl.
  match goal with |- context [linalg_solve ?T b] => exists T end.
  split; [reflexivity |]. split; [| split; [reflexivity |]].
  - intros i j Hi Hj. cbn [elem]. rewrite bcast_index_square by assumption. reflexivity.
  - intros e' He'. simpl. exact He'.
Qed.

End SolveLineqn.

Lemma solve_lineqn_retries_once_witness :
  exists A',
    shape A' = [2; 2]
    /\ (forall i j, i < 2 -> j < 2 ->
          elem A' [i; j] = (elem singular22 [i; j] + eps5 * (if i =? j then 1 else 0))%Qc)
    /\ solve_lineqn cramer_solve singular22 ones2 eps5 stdio0
       = (cramer_solve A' ones2, print_ "WARNING: The matrix was singular" stdio0)
    /\ (forall e', cramer_solve A' ones2 = Raise e' ->
          fst (solve_lineqn cramer_solve singular22 ones2 eps5 stdio0) = Raise e').
Proof.
  apply (solve_lineqn_retries_once cramer_solve singular22 ones2 eps5 stdio0 2 LinAlgError).
  - reflexivity.
  - vm_compute. reflexivity.
  - reflexivity.
Defined.

(** On that input the retry succeeds, and the warning is the only text
    printed. *)
Example solve_lineqn_singular22 :
  exists x, solve_lineqn cramer_solve singular22 ones2 eps5 stdio0
            = (Ok x, Stdio ("WARNING: The matrix was singular" +:+ newline)
                       Console (fun _ => "") 0).
Proof. vm_compute. eexists. reflexivity. Qed.

(** An exception that is not a [RuntimeError] is not caught. *)
Lemma solve_lineqn_other_exception linalg_solve A b eps io e :
  linalg_solve A b = Raise e -> is_RuntimeError e = false ->
  solve_lineqn linalg_solve A b eps io = (Raise e, io).
Proof. intros H1 H2. unfold solve_lineqn. by rewrite H1, H2. Qed.

(** ** Metrics reporter *)

Section MetricsTest.

Context {aux dec : Type}.
Variable model : tensor Qc -> tensor Qc.
Variable problem : problem_t aux dec.
Variable loss_fn : tensor Qc -> tensor Qc -> aux -> string -> nat -> tensor Qc.
Variable str_float : scalar -> string.

Lemma partition_metrics_test (prefix : string) Xs Ys Ys_aux :
  partition_metrics model problem loss_fn prefix (Xs, Ys, Ys_aux, "test")
  = Ok (test_metric model problem Xs Ys Ys_aux).
Proof.
  unfold partition_metrics. simpl. rewrite L1Loss_zeros_neg. reflexivity.
Qed.

(** Partitions with other names leave an entry of the dictionary alone. *)
Lemma print_metrics_from_other (k : string) (prefix : string) (ds : list (dataset aux))
    (m m' : gmap string metric) (io io' : stdio) :
  Forall (fun d => snd d ≠ k) ds ->
  print_metrics_from model problem loss_fn str_float prefix ds m io = (Ok m', io') ->
  m' !! k = m !! k.
Proof.
  intros Hds. revert m io. induction Hds as [|d ds Hd _ IH]; intros m io; simpl.
  - by intros [= ->].
  - destruct (partition_metrics _ _ _ _ d) as [md | e]; [| discriminate].
    intros Hrun. rewrite (IH _ _ Hrun). by rewrite lookup_insert_ne.
Qed.

Lemma print_metrics_from_last (prefix : string) (ds1 ds2 : list (dataset aux))
    Xs Ys Ys_aux (m m' : gmap string metric) (io io' : stdio) :
  Forall (fun d => snd d ≠ "test") ds2 ->
  print_metrics_from model problem loss_fn str_float prefix
    (ds1 ++ (Xs, Ys, Ys_aux, "test") :: ds2) m io = (Ok m', io') ->
  m' !! "test" = Some (test_metric model problem Xs Ys Ys_aux).
Proof.
  intros Hds2. revert m io. induction ds1 as [|d ds1 IH]; intros m io.
  - cbn [app print_metrics_from]. rewrite partition_metrics_test. intros Hrun.
    rewrite (print_metrics_from_other "test" _ _ _ _ _ _ Hds2 Hrun).
    apply lookup_insert_eq.
  - cbn [app print_metrics_from].
    destruct (partition_metrics _ _ _ _ d) as [md | e]; [| discriminate]. apply IH.
Qed.

(** The amended C5 (see [print_metrics_test_mae_is_not_mean_objective]).  When
    [print_metrics] returns, the entry it reports for a dataset named test
    (the last one of that name) is built from all-zeros losses of the shape of
    the objectives, whatever the predictor gives: its loss is 0 as soon as
    there is one objective, and its mae is the mean of the absolute values of
    the objectives, which is the mean objective when no objective is
    negative. *)
Theorem print_metrics_test (prefix loss_type : string) (ds1 ds2 : list (dataset aux))
    Xs Ys Ys_aux (metrics : gmap string metric) (io io' : stdio) :
  Forall (fun d => snd d ≠ "test") ds2 ->
  print_metrics model problem loss_fn str_float
    (ds1 ++ (Xs, Ys, Ys_aux, "test") :: ds2) loss_type prefix io = (Ok metrics, io') ->
  let o := test_objectives model problem Xs Ys Ys_aux in
  exists m, metrics !! "test" = Some m
    /\ objective m = Torch.mean o
    /\ loss m = Torch.mean (Torch.zeros_like o)
    /\ shape (Torch.zeros_like o) = shape o
    /\ (forall idx, elem (Torch.zeros_like o) idx = 0%Qc)
    /\ (numel o ≠ 0 -> loss m = Fin 0)
    /\ mae m = Torch.mean (Torch.map Qcabs o)
    /\ ((forall idx, idx ∈ indices (shape o) -> (0 <= elem o idx)%Qc) ->
        mae m = objective m).
Proof.
  intros Hds2 Hrun o. exists (test_metric model problem Xs Ys Ys_aux).
  split; [exact (print_metrics_from_last _ _ _ _ _ _ _ _ _ _ Hds2 Hrun) |].
  simpl. fold o. repeat split.
  - apply mean_zeros_like.
  - apply mean_abs_nonneg.
Qed.

End MetricsTest.

(** A single dataset named test is always reported. *)
Lemma print_metrics_single_test {aux dec : Type} model (problem : problem_t aux dec)
    loss_fn str_float (prefix loss_type : string) Xs Ys Ys_aux (io : stdio) :
  let m := test_metric model problem Xs Ys Ys_aux in
  print_metrics model problem loss_fn str_float [(Xs, Ys, Ys_aux, "test")] loss_type prefix io
  = (Ok {["test" := m]}, print_ (metrics_line str_float prefix "test" m) io).
Proof.
  intros m. unfold print_metrics. cbn [print_metrics_from].
  rewrite partition_metrics_test. reflexivity.
Qed.

Lemma print_metrics_test_witness :
  exists metrics io',
    print_metrics model_id problem_id loss_pred str_any [data_train; data_test] "mse" ""
      stdio0 = (Ok metrics, io')
    /\ let o := test_objectives model_id problem_id
                  (vector [Q2Qc 1; Q2Qc 3]) (vector [Q2Qc 1; Q2Qc 3]) [(); ()] in
       exists m, metrics !! "test" = Some m
         /\ objective m = Torch.mean o
         /\ loss m = Torch.mean (Torch.zeros_like o)
         /\ shape (Torch.zeros_like o) = shape o
         /\ (forall idx, elem (Torch.zeros_like o) idx = 0%Qc)
         /\ (numel o ≠ 0 -> loss m = Fin 0)
         /\ mae m = Torch.mean (Torch.map Qcabs o)
         /\ ((forall idx, idx ∈ indices (shape o) -> (0 <= elem o idx)%Qc) ->
             mae m = objective m).
Proof.
  eexists. eexists.
  assert (Hrun : forall r, r = print_metrics model_id problem_id loss_pred str_any
                             [data_train; data_test] "mse" "" stdio0 ->
                 print_metrics model_id problem_id loss_pred str_any
                   [data_train; data_test] "mse" "" stdio0 = (Ok (match fst r with Ok m => m | _ => ∅ end), snd r)).
  { intros r ->. vm_compute. reflexivity. }
  split.
  - apply (Hrun _ eq_refl).
  - apply (print_metrics_test model_id problem_id loss_pred str_any "" "mse"
             [data_train] [] _ _ _ _ stdio0 _ (Forall_nil_2 _) (Hrun _ eq_refl)).
Defined.

(** C5 as stated fails: for the test partition [data_test_neg] the reported
    mae is the mean of [|0 - (-objective)|], which is 1, and not the mean
    objective, which is -1. *)
Lemma print_metrics_test_mae_is_not_mean_objective :
  exists metrics io' m,
    print_metrics model_id problem_id loss_pred str_any [data_test_neg] "mse" "" stdio0
      = (Ok metrics, io')
    /\ metrics !! "test" = Some m
    /\ loss m = Fin 0
    /\ mae m = Fin 1
    /\ objective m = Fin (Q2Qc (-1))
    /\ mae m ≠ objective m.
Proof.
  unfold data_test_neg. do 3 eexists.
  split; [apply print_metrics_single_test |].
  split; [apply lookup_insert_eq |].
  assert (Hl : loss (test_metric model_id problem_id (vector [Q2Qc (-1)])
                       (vector [Q2Qc (-1)]) [()]) = Fin 0).
  { apply mean_zeros_like. discriminate. }
  assert (Hm : mae (test_metric model_id problem_id (vector [Q2Qc (-1)])
                      (vector [Q2Qc (-1)]) [()]) = Fin 1).
  { reflexivity. }
  assert (Ho : objective (test_metric model_id problem_id (vector [Q2Qc (-1)])
                            (vector [Q2Qc (-1)]) [()]) = Fin (Q2Qc (-1))).
  { reflexivity. }
  rewrite Hl, Hm, Ho. split; [reflexivity |]. split; [reflexivity |].
  split; [reflexivity |]. intros [= H].
Qed.

(** With no objective at all, the three reported numbers are NaN. *)
Example print_metrics_test_empty :
  test_metric model_id problem_id (vector []) (vector []) [] = Metric NaN NaN NaN.
Proof. reflexivity. Qed.

(** ** Output capture *)

Lemma sys_stdout_write (s : string) (io : stdio) :
  sys_stdout (write s io) = sys_stdout io.
Proof. unfold write. by destruct (sys_stdout io). Qed.

Lemma sys_stdout_print (s : string) (io : stdio) :
  sys_stdout (print_ s io) = sys_stdout io.
Proof. apply sys_stdout_write. Qed.


Section Capture.

Context {A : Type}.
Variable body : stdio -> result A * stdio.

Lemma with_Capturing_eq (io : stdio) :
  with_Capturing body io
  = (body_outcome body io,
     MkCapturing (splitlines (buffers (body_exit body io) (next_id io)))
       (Some (sys_stdout io)) None,
     Stdio (console (body_exit body io)) (sys_stdout io) (buffers (body_exit body io))
       (next_id (body_exit body io))).
Proof.
  unfold with_Capturing, body_outcome, body_exit, scope_entry. simpl.
  destruct (body _) as [r io2]. reflexivity.
Qed.


End Capture.

Example with_Capturing_prints :
  let '(r, output, io') := with_Capturing body_prints stdio0 in
  r = Ok 7 /\ items output = ["first"; "second"]
  /\ sys_stdout io' = Console /\ console io' = "".
Proof. repeat split. Qed.

Example with_Capturing_raises :
  let '(r, output, io') := with_Capturing body_raises stdio0 in
  r = Raise ValueError /\ items output = ["before the error"]
  /\ sys_stdout io' = Console /\ console io' = "".
Proof. repeat split. Qed.

(** Captures nest: the inner scope gives [sys.stdout] back to the outer one. *)
Example with_Capturing_nested :
  let '(r, output, io') :=
    with_Capturing (fun io => let '(r, inner, io1) := with_Capturing body_raises io in
                              (r, print_ "outer" io1)) stdio0 in
  r = Raise ValueError /\ items output = ["outer"] /\ sys_stdout io' = Console.
Proof. repeat split. Qed.

(** ** The lock decorator *)

Section Lock.

Context {S A : Type}.
Variable fn : S -> result A * S.

Lemma open_lock_fresh (l : flock_state) :
  (fst (open_lock l) ∉ open_fds l) /\ (holder l ≠ Some (fst (open_lock l))).
Proof.
  simpl. pose proof (is_fresh (open_fds l ∪ option_to_set (holder l))) as Hfresh.
  split.
  - intros Hin. apply Hfresh. apply elem_of_union. by left.
  - intros Hh. apply Hfresh. apply elem_of_union. right. rewrite Hh at 2.
    by apply elem_of_singleton.
Qed.

Lemma close_after_open (l : flock_state) (fd : nat) :
  fd = fst (open_lock l) -> ({[fd]} ∪ open_fds l) ∖ {[fd]} = open_fds l.
Proof.
  intros ->. destruct (open_lock_fresh l) as [Hfd _].
  apply set_eq. intros x. rewrite elem_of_difference, elem_of_union, elem_of_singleton.
  split; [tauto |]. intros Hx. split; [by right |]. by intros ->.
Qed.

(** With the lock free, the wrapper runs the function and leaves the lock
    file as it found it: no descriptor open, no lock held. *)
Lemma lock_free (s : S) (l : flock_state) :
  holder l = None -> lock fn s l = Some (fn s, l).
Proof.
  destruct l as [fds h]. cbn [holder]. intros ->.
  pose proof (close_after_open (Flock fds None) _ eq_refl) as Hclose.
  unfold lock. cbn [open_lock fst] in *. unfold flock_ex. cbn [holder open_fds] in *.
  destruct (fn s) as [[res | e] s']; f_equal; f_equal;
    unfold close_lock, flock_un; cbn [holder open_fds];
    repeat (case_decide; try congruence); cbn [holder open_fds];
    repeat (case_decide; try congruence); by rewrite Hclose.
Qed.

(** While another description holds the lock, the wrapper waits. *)
Lemma lock_held (s : S) (l : flock_state) (h : nat) :
  holder l = Some h -> lock fn s l = None.
Proof.
  intros Hheld. unfold lock. cbn [open_lock]. unfold flock_ex. cbn [holder].
  rewrite Hheld. destruct (open_lock_fresh l) as [_ Hne]. simpl in Hne.
  rewrite Hheld in Hne.
  rewrite decide_False; [reflexivity |]. intros Heq. apply Hne. by f_equal.
Qed.

(** C4. When the wrapped function raises, the call of the wrapper, if it got
    the lock at all, ends with the same exception and with the lock on
    [.lock] released: leaving the [with open(...)] block closes the file, and
    with it goes the lock its description held.  With the lock free at the
    call, the wrapper does get it. *)
Theorem lock_released_when_body_raises (s s' : S) (e : exn) (l : flock_state) :
  fn s = (Raise e, s') ->
  (holder l = None -> lock fn s l = Some (Raise e, s', l))
  /\ (forall out, lock fn s l = Some out ->
        out = (Raise e, s', l) /\ holder (snd out) = None).
Proof.
  intros Hfn. split.
  - intros Hfree. by rewrite lock_free, Hfn.
  - intros out Hout. destruct (holder l) as [h |] eqn:Hh.
    + by rewrite (lock_held _ _ h) in Hout.
    + rewrite lock_free, Hfn in Hout by done. injection Hout as <-. done.
Qed.

End Lock.

(** The lock is held while the function runs: a call of the wrapper from
    inside the function would wait for ever. *)
Example lock_is_held_inside :
  let '(file, l1) := open_lock (Flock ∅ None) in
  (holder <$> flock_ex file l1) = Some (Some file).
Proof. reflexivity. Qed.

(** ** The problem index and cache *)

Lemma py_eq_refl (v : value) : py_eq v v = true.
Proof.
  destruct v as [n | q | s]; simpl.
  - apply Z.eqb_refl.
  - unfold Qc_eq_bool. destruct (Qcanon.Qc_eq_dec q q) as [_ | Hne]; [reflexivity | by destruct Hne].
  - apply String.eqb_refl.
Qed.

Section Cache_facts.

Context {P : Type}.
Variable str_float : scalar -> string.

Implicit Types (fs : gmap string (file P)) (kwargs r : gmap string value).
Implicit Types (cols : list string) (rs : list (gmap string value)).

Lemma relevant_rows_filter cols kwargs rs :
  relevant_rows cols kwargs rs = filter (row_matches cols kwargs) rs.
Proof.
  unfold relevant_rows, row_matches.
  transitivity (filter (fun r => Forall (fun cv => cv.1 ∈ cols ->
                   cell_eq (get_cell r cv.1) cv.2 = true) (map_to_list kwargs)) rs).
  - generalize (map_to_list kwargs) as l. intros l. revert rs.
    induction l as [|[col val] l IH]; intros rs; simpl.
    + induction rs as [|r rs IHrs]; [done |].
      rewrite filter_cons_True by constructor. by f_equal.
    + rewrite IH. case_bool_decide as Hcol.
      * unfold loc_eq. rewrite list_filter_filter. apply list_filter_iff.
        intros r. rewrite Forall_cons. simpl. tauto.
      * apply list_filter_iff. intros r. rewrite Forall_cons. simpl. tauto.
  - apply list_filter_iff. intros r. rewrite map_Forall_to_list.
    apply Forall_proper; [| done]. by intros [col val].
Qed.

Lemma relevant_rows_nil cols kwargs : relevant_rows cols kwargs [] = [].
Proof. by rewrite relevant_rows_filter. Qed.

(** The amended C2 (see [find_saved_problem_missing_file_filename_key]).  For
    a master file that does not exist and a [kwargs] without a key named
    [filename], [find_saved_problem] does not raise: it returns [None] and a
    table without rows whose columns are [filename] and the keys of [kwargs],
    each label once. *)
Theorem find_saved_problem_missing_file fs (master_filename : string) kwargs :
  fs !! master_filename = None ->
  kwargs !! "filename" = None ->
  exists table,
    find_saved_problem fs master_filename kwargs = Ok (None, table)
    /\ list_to_set (columns table) =@{gset string} {["filename"]} ∪ dom kwargs
    /\ NoDup (columns table)
    /\ rows table = [].
Proof.
  intros Hmissing Hkey. exists (empty_frame ("filename" :: (map_to_list kwargs).*1)).
  split; [| split; [| split]].
  - unfold find_saved_problem. rewrite Hmissing, Hkey.
    rewrite bool_decide_false by (by intros [? ?]). cbn.
    rewrite relevant_rows_nil. reflexivity.
  - cbn [columns empty_frame]. rewrite list_to_set_cons. f_equal.
    apply leibniz_equiv. by rewrite dom_alt.
  - cbn [columns empty_frame]. apply NoDup_cons. split.
    + intros [[k v] [Hk Hin]]%list_elem_of_fmap. cbn in Hk. subst k.
      apply elem_of_map_to_list in Hin. congruence.
    + apply NoDup_fst_map_to_list.
  - reflexivity.
Qed.

(** What [find_saved_problem] returns on a table with a [filename] column:
    the [filename] cell of the first row that passes the filter. *)
Lemma find_saved_problem_table fs (master_filename : string) kwargs df :
  fs !! master_filename = Some (CsvFile df) ->
  "filename" ∈ columns df ->
  find_saved_problem fs master_filename kwargs
  = Ok (match filter (row_matches (columns df) kwargs) (rows df) with
        | r :: _ => Some (get_cell r "filename")
        | [] => None
        end, df).
Proof.
  intros Hfile Hcol. unfold find_saved_problem. rewrite Hfile. cbn.
  rewrite relevant_rows_filter. unfold df_empty. cbn.
  destruct (filter _ (rows df)) as [|r rs'] eqn:Hsurv; cbn; [reflexivity |].
  rewrite bool_decide_false;
    [| intros Heq; rewrite Heq in Hcol; by apply not_elem_of_nil in Hcol]. cbn.
  by rewrite bool_decide_true.
Qed.

(** A key of [kwargs] that is not a column plays no part in the filter. *)
Lemma row_matches_delete cols kwargs r (k : string) :
  k ∉ cols -> row_matches cols (delete k kwargs) r <-> row_matches cols kwargs r.
Proof.
  intros Hk. unfold row_matches, map_Forall. split.
  - intros H col val Hget Hin. apply H; [| done].
    rewrite lookup_delete_ne; [done |]. by intros ->.
  - intros H col val Hget. apply H. by apply lookup_delete_Some in Hget as [_ ?].
Qed.

End Cache_facts.

Lemma py_eq_num (p q : Qc) : py_eq (VNum p) (VNum q) = true <-> p = q.
Proof.
  simpl. split; [apply Qc_eq_bool_correct |].
  intros ->. apply (py_eq_refl (VNum q)).
Qed.

Section Find.

Context {P : Type}.

Implicit Types (fs : gmap string (file P)) (kwargs r : gmap string value).

(** C3. On an index table (a table with a [filename] column),
    [find_saved_problem] keeps the rows that are equal to [kwargs] on every
    key of [kwargs] that is a column, and returns the [filename] of the first
    of them, or [None] when there is none.  A key that is not a column is
    ignored, without error.  A row whose stored value differs from the
    requested one is left out, however close the two numbers are. *)
Theorem find_saved_problem_exact_match fs (master_filename : string) kwargs df :
  fs !! master_filename = Some (CsvFile df) ->
  "filename" ∈ columns df ->
  let survivors := filter (row_matches (columns df) kwargs) (rows df) in
  relevant_rows (columns df) kwargs (rows df) = survivors
  /\ find_saved_problem fs master_filename kwargs
     = Ok (match survivors with
           | r :: _ => Some (get_cell r "filename")
           | [] => None
           end, df)
  /\ (forall r, r ∈ survivors <->
        r ∈ rows df
        /\ forall col val, kwargs !! col = Some val -> col ∈ columns df ->
             exists v, r !! col = Some v /\ py_eq v val = true)
  /\ (forall k, k ∉ columns df ->
        find_saved_problem fs master_filename (delete k kwargs)
        = find_saved_problem fs master_filename kwargs)
  /\ (forall r col (p q : Qc),
        kwargs !! col = Some (VNum q) -> col ∈ columns df ->
        r !! col = Some (VNum p) -> p ≠ q -> r ∉ survivors).
Proof.
  intros Hfile Hcol survivors.
  assert (Hsurv : forall r, r ∈ survivors <->
            r ∈ rows df
            /\ forall col val, kwargs !! col = Some val -> col ∈ columns df ->
                 exists v, r !! col = Some v /\ py_eq v val = true).
  { intros r. unfold survivors. rewrite list_elem_of_filter.
    unfold row_matches, map_Forall, get_cell. split.
    - intros [Hm Hr]. split; [done |]. intros col val Hget Hin.
      specialize (Hm col val Hget Hin). destruct (r !! col) as [v |]; [eauto | done].
    - intros [Hr Hm]. split; [| done]. intros col val Hget Hin.
      destruct (Hm col val Hget Hin) as (v & -> & Hv). done. }
  split; [apply relevant_rows_filter |].
  split; [by apply find_saved_problem_table |].
  split; [exact Hsurv |]. split.
  - intros k Hk. rewrite !(find_saved_problem_table _ _ _ df) by done.
    rewrite (list_filter_iff (row_matches (columns df) (delete k kwargs))
               (row_matches (columns df) kwargs)); [done |].
    intros r. by apply row_matches_delete.
  - intros r col p q Hget Hin Hr Hpq [_ Hm]%Hsurv.
    destruct (Hm col _ Hget Hin) as (v & Hv & Heq). rewrite Hr in Hv.
    injection Hv as <-. by apply py_eq_num in Heq.
Qed.

End Find.

Lemma find_saved_problem_exact_match_witness :
  let kwargs : gmap string value := {[ "lr" := VNum (Q2Qc (5 # 10)) ]} in
  let survivors := filter (row_matches (columns index2) kwargs) (rows index2) in
  relevant_rows (columns index2) kwargs (rows index2) = survivors
  /\ find_saved_problem fs2 "models/P.csv" kwargs
     = Ok (match survivors with
           | r :: _ => Some (get_cell r "filename")
           | [] => None
           end, index2)
  /\ (forall r, r ∈ survivors <->
        r ∈ rows index2
        /\ forall col val, kwargs !! col = Some val -> col ∈ columns index2 ->
             exists v, r !! col = Some v /\ py_eq v val = true)
  /\ (forall k, k ∉ columns index2 ->
        find_saved_problem fs2 "models/P.csv" (delete k kwargs)
        = find_saved_problem fs2 "models/P.csv" kwargs)
  /\ (forall r col (p q : Qc),
        kwargs !! col = Some (VNum q) -> col ∈ columns index2 ->
        r !! col = Some (VNum p) -> p ≠ q -> r ∉ survivors).
Proof.
  intros kwargs.
  apply (find_saved_problem_exact_match fs2 "models/P.csv" kwargs index2).
  - reflexivity.
  - apply list_elem_of_here.
Defined.

(** The second row is found for 0.5; nothing is found for 0.5000001; a key
    that is not a column changes nothing. *)
Example find_saved_problem_half :
  find_saved_problem fs2 "models/P.csv" {[ "lr" := VNum (Q2Qc (5 # 10)) ]}
  = Ok (Some (Cell (VStr "models/P_1.pkl")), index2).
Proof. reflexivity. Qed.

Example find_saved_problem_close :
  find_saved_problem fs2 "models/P.csv" {[ "lr" := VNum (Q2Qc (5000001 # 10000000)) ]}
  = Ok (None, index2).
Proof. reflexivity. Qed.

Example find_saved_problem_new_key :
  find_saved_problem fs2 "models/P.csv"
    {[ "lr" := VNum (Q2Qc (5 # 10)); "seed" := VInt 7 ]}
  = Ok (Some (Cell (VStr "models/P_1.pkl")), index2).
Proof. reflexivity. Qed.

(** *** File names *)

Lemma prefix_slash_app (name x y : string) :
  name ≠ "" \/ String.prefix "/" x = String.prefix "/" y ->
  String.prefix "/" (name +:+ x) = String.prefix "/" (name +:+ y).
Proof.
  destruct name as [|c s]; cbn [String.append String.prefix].
  - intros [? | ?]; done.
  - intros _. change (String c s +:+ x) with (String c (s +:+ x)).
    change (String c s +:+ y) with (String c (s +:+ y)).
    cbn [String.prefix].
    match goal with
    | |- context [Ascii.ascii_dec ?a c] =>
        destruct (Ascii.ascii_dec a c); [| reflexivity]
    end.
    by destruct (s +:+ x), (s +:+ y).
Qed.

Lemma os_path_join_inj (a b1 b2 : string) :
  String.prefix "/" b1 = String.prefix "/" b2 ->
  os_path_join a b1 = os_path_join a b2 -> b1 = b2.
Proof.
  intros Hpre. unfold os_path_join. rewrite Hpre.
  destruct (String.prefix "/" b2); [done |].
  destruct (bool_decide (a = "") || ends_with_slash a).
  - apply String.app_inj.
  - intros H%String.app_inj. by apply (String.app_inj "/") in H.
Qed.

Section Paths.

Context {P : Type}.
Variable problem_cls : problem_class P.
Variable folder : string.

Lemma pickle_path_not_master (n : nat) :
  pickle_path problem_cls folder n ≠ master_path problem_cls folder.
Proof.
  unfold pickle_path, master_path. intros H%os_path_join_inj.
  - by apply String.app_inj in H.
  - apply prefix_slash_app. by right.
Qed.

End Paths.

(** *** The two paths of [init_if_not_saved] *)

Section Init.

Context {P : Type}.
Variable str_float : scalar -> string.
Variable disk : storage P.
Variable problem_cls : problem_class P.
Variable folder : string.

Implicit Types (fs : gmap string (file P)) (kwargs : gmap string value).
Implicit Types (io : stdio) (l : flock_state).

#[local] Abbreviation master := (master_path problem_cls folder).
#[local] Abbreviation pickle := (pickle_path problem_cls folder).

Lemma init_body_build (load_new : bool) kwargs fs io filename saved_probs problem :
  find_saved_problem fs master kwargs = Ok (filename, saved_probs) ->
  load_new = true \/ filename = None ->
  cls_init problem_cls kwargs = Ok problem ->
  save_succeeds disk problem_cls folder saved_probs problem ->
  init_if_not_saved_body str_float disk problem_cls folder load_new (kwargs, fs, io)
  = (Ok problem, (saved_state disk problem_cls folder saved_probs problem kwargs fs,
        io_saved str_float filename io)).
Proof.
  intros Hfind Hpath Hinit (Hopen & Hdump & Hindex).
  unfold init_if_not_saved_body, saved_state, io_saved, io_found.
  unfold master_path, pickle_path in *.
  rewrite Hfind, Hinit, Hopen, Hdump, Hindex.
  destruct Hpath as [-> | ->]; [| destruct load_new]; reflexivity.
Qed.

Lemma init_body_hit kwargs fs io found saved_probs :
  find_saved_problem fs master kwargs = Ok (Some found, saved_probs) ->
  init_if_not_saved_body str_float disk problem_cls folder false (kwargs, fs, io)
  = (load_pickle fs found, (kwargs, fs, io_found str_float (Some found) io)).
Proof.
  intros Hfind. unfold init_if_not_saved_body. fold master. by rewrite Hfind.
Qed.

(** C9. With the lock free, on the build-and-save path ([load_new] true, or
    no file name found): when the construction succeeds and the save goes
    through, [init_if_not_saved] returns and leaves the caller's [kwargs]
    with the key [filename] bound to the path of the file it has just
    written; and every call on that path that returns an instance has left
    [kwargs] so.  On the cache-hit path it leaves [kwargs] as it was. *)
Theorem init_if_not_saved_adds_filename_to_kwargs (load_new : bool) kwargs fs io l
    filename saved_probs :
  holder l = None ->
  find_saved_problem fs master kwargs = Ok (filename, saved_probs) ->
  (load_new = true \/ filename = None ->
   forall problem, cls_init problem_cls kwargs = Ok problem ->
   save_succeeds disk problem_cls folder saved_probs problem ->
   exists kwargs' fs' io',
     init_if_not_saved str_float disk problem_cls folder load_new (kwargs, fs, io) l
     = Some (Ok problem, (kwargs', fs', io'), l)
     /\ kwargs' = <["filename" := VStr (pickle (length (rows saved_probs)))]> kwargs
     /\ kwargs' !! "filename" = Some (VStr (pickle (length (rows saved_probs))))
     /\ fs' !! pickle (length (rows saved_probs)) = Some (PickleFile problem))
  /\ (load_new = true \/ filename = None ->
      forall problem kwargs' fs' io' l',
        init_if_not_saved str_float disk problem_cls folder load_new (kwargs, fs, io) l
        = Some (Ok problem, (kwargs', fs', io'), l') ->
        kwargs' = <["filename" := VStr (pickle (length (rows saved_probs)))]> kwargs
        /\ fs' !! pickle (length (rows saved_probs)) = Some (PickleFile problem))
  /\ (load_new = false ->
      forall found, filename = Some found ->
      exists io',
        init_if_not_saved str_float disk problem_cls folder load_new (kwargs, fs, io) l
        = Some (load_pickle fs found, (kwargs, fs, io'), l)).
Proof.
  intros Hfree Hfind. unfold init_if_not_saved. rewrite lock_free by done.
  split; [| split].
  - intros Hpath problem Hinit Hsave.
    rewrite (init_body_build _ _ _ _ _ _ _ Hfind Hpath Hinit Hsave). unfold saved_state.
    do 3 eexists. split; [reflexivity |]. split; [reflexivity |].
    split; [apply lookup_insert_eq |].
    rewrite lookup_insert_ne by (apply not_eq_sym, pickle_path_not_master).
    apply lookup_insert_eq.
  - intros Hpath problem kwargs' fs' io' l'.
    unfold init_if_not_saved_body. unfold master_path, pickle_path in *. rewrite Hfind.
    destruct Hpath as [-> | ->]; [| destruct load_new]; cbn [negb];
      (destruct (cls_init problem_cls kwargs) as [built | e]; [| discriminate]);
      (destruct (open_error disk (os_path_join folder (_ +:+ "_" +:+ _))) as [e |];
         [discriminate |]);
      (destruct (pickle_dump disk built) as [| e partial]; [| discriminate]);
      (destruct (open_error disk (os_path_join folder (_ +:+ ".csv"))) as [e |];
         [discriminate |]);
      intros [= <- <- <- _ _]; (split; [reflexivity |]);
      (rewrite lookup_insert_ne
         by (apply not_eq_sym, (pickle_path_not_master problem_cls folder)));
      apply lookup_insert_eq.
  - intros -> found ->. rewrite (init_body_hit _ _ _ _ _ Hfind). eauto.
Qed.


(** *** A second call finds what the first one saved *)

Lemma filter_nil_mono {A} (P1 P2 : A -> Prop)
    `{!forall x, Decision (P1 x), !forall x, Decision (P2 x)} (l : list A) :
  (forall x, P2 x -> P1 x) -> filter P1 l = [] -> filter P2 l = [].
Proof.
  intros Himp. induction l as [|x l IH]; [done |].
  rewrite filter_cons. destruct (decide (P1 x)) as [| Hx]; [done |].
  intros Hnil. rewrite filter_cons_False by (intros ?%Himp; done). by apply IH.
Qed.

Lemma row_matches_mono (cols cols' : list string) kwargs kwargs2 (r : gmap string value) :
  cols ⊆ cols' -> kwargs ⊆ kwargs2 ->
  row_matches cols' kwargs2 r -> row_matches cols kwargs r.
Proof.
  intros Hcols Hkw Hm col val Hget Hin.
  apply (Hm col val); [by eapply lookup_weaken | by apply Hcols].
Qed.

Lemma row_matches_self (cols : list string) kwargs2 kwargs' :
  kwargs2 ⊆ kwargs' -> row_matches cols kwargs2 kwargs'.
Proof.
  intros Hkw col val Hget _. unfold get_cell.
  rewrite (lookup_weaken _ _ _ _ Hget Hkw). apply py_eq_refl.
Qed.

Lemma find_none_no_match fs kwargs saved_probs :
  find_saved_problem fs master kwargs = Ok (None, saved_probs) ->
  "filename" ∈ columns saved_probs ->
  filter (row_matches (columns saved_probs) kwargs) (rows saved_probs) = [].
Proof.
  intros Hfind Hcol. destruct (fs !! master) as [[df | p | s] |] eqn:Hfile.
  - assert (saved_probs = df) as ->.
    { unfold find_saved_problem in Hfind. rewrite Hfile in Hfind. cbn in Hfind.
      repeat case_match; congruence. }
    rewrite (find_saved_problem_table _ _ _ df Hfile Hcol) in Hfind.
    destruct (filter _ (rows df)); [done | discriminate].
  - unfold find_saved_problem in Hfind. by rewrite Hfile in Hfind.
  - unfold find_saved_problem in Hfind. by rewrite Hfile in Hfind.
  - assert (rows saved_probs = []) as ->; [| done].
    unfold find_saved_problem in Hfind. rewrite Hfile in Hfind.
    case_bool_decide; [discriminate |]. cbn in Hfind.
    rewrite relevant_rows_nil in Hfind. by injection Hfind as <-.
Qed.

Lemma find_after_save fs kwargs kwargs2 saved_probs problem :
  find_saved_problem fs master kwargs = Ok (None, saved_probs) ->
  "filename" ∈ columns saved_probs ->
  reads_back disk (written_table problem_cls folder saved_probs kwargs) ->
  let st := saved_state disk problem_cls folder saved_probs problem kwargs fs in
  kwargs ⊆ kwargs2 -> kwargs2 ⊆ st.1 ->
  find_saved_problem st.2 master kwargs2
  = Ok (Some (Cell (VStr (pickle (length (rows saved_probs))))),
        concat saved_probs (from_dict st.1)).
Proof.
  intros Hfind Hcol Hback st Hsub1 Hsub2. unfold st, saved_state. cbn [fst snd].
  unfold reads_back, written_table in Hback. rewrite Hback.
  set (kwargs' := <["filename" := VStr (pickle (length (rows saved_probs)))]> kwargs).
  set (saved' := concat saved_probs (from_dict kwargs')).
  assert (Hcols : columns saved_probs ⊆ columns saved').
  { intros c Hc. cbn. apply elem_of_app. by left. }
  rewrite (find_saved_problem_table _ _ _ saved'); [| apply lookup_insert_eq | by apply Hcols].
  cbn [rows saved' concat from_dict]. rewrite filter_app.
  assert (Hold : filter (row_matches (columns saved') kwargs2) (rows saved_probs) = []).
  { apply (filter_nil_mono (row_matches (columns saved_probs) kwargs)
             (row_matches (columns saved') kwargs2));
      [| by apply (find_none_no_match fs)].
    intros r. by apply row_matches_mono. }
  rewrite Hold. rewrite filter_cons_True by by apply row_matches_self.
  cbn. unfold get_cell, kwargs'. by rewrite lookup_insert_eq.
Qed.

(** The amended C1 (see [init_if_not_saved_new_key_hits_old_row]).  Take a
    [kwargs] without the key [filename] for which [find_saved_problem] finds
    no file name in the index (a table with a [filename] column, or no file
    yet): every row differs from [kwargs] on a key that is a column.  With
    the lock free, the construction succeeding, the next file name unused,
    the save going through (the two files can be opened for writing, the
    instance can be pickled) and the new index reading back as written (no
    cell retyped), a call of [init_if_not_saved], whatever [load_new],
    appends one row to the index and writes one new pickle file; and a
    following call with [load_new] false and the same keyword arguments (the
    dictionary as the first call left it, or one equal to the original)
    returns the instance read from that file and changes neither the index
    nor the files. *)
Theorem init_if_not_saved_caches_once (load_new : bool) kwargs fs io l
    saved_probs problem :
  holder l = None ->
  find_saved_problem fs master kwargs = Ok (None, saved_probs) ->
  "filename" ∈ columns saved_probs ->
  kwargs !! "filename" = None ->
  cls_init problem_cls kwargs = Ok problem ->
  fs !! pickle (length (rows saved_probs)) = None ->
  save_succeeds disk problem_cls folder saved_probs problem ->
  reads_back disk (written_table problem_cls folder saved_probs kwargs) ->
  let filename := pickle (length (rows saved_probs)) in
  let kwargs' := <["filename" := VStr filename]> kwargs in
  let saved_probs' := concat saved_probs (from_dict kwargs') in
  let fs' := <[master := CsvFile saved_probs']> (<[filename := PickleFile problem]> fs) in
  exists io',
    init_if_not_saved str_float disk problem_cls folder load_new (kwargs, fs, io) l
    = Some (Ok problem, (kwargs', fs', io'), l)
    /\ rows saved_probs' = rows saved_probs ++ [kwargs']
    /\ fs' !! master = Some (CsvFile saved_probs')
    /\ fs' !! filename = Some (PickleFile problem)
    /\ (forall f, f ≠ master -> f ≠ filename -> fs' !! f = fs !! f)
    /\ forall kwargs2, kwargs2 = kwargs' \/ kwargs2 = kwargs ->
         find_saved_problem fs' master kwargs2
         = Ok (Some (Cell (VStr filename)), saved_probs')
         /\ load_pickle fs' (Cell (VStr filename)) = Ok problem
         /\ exists io'',
              init_if_not_saved str_float disk problem_cls folder false (kwargs2, fs', io') l
              = Some (Ok problem, (kwargs2, fs', io''), l).
Proof.
  intros Hfree Hfind Hcol Hkey Hinit Hnew Hsave Hback filename kwargs' saved_probs' fs'.
  assert (Hst : saved_state disk problem_cls folder saved_probs problem kwargs fs
                = (kwargs', fs')).
  { unfold saved_state. unfold reads_back, written_table in Hback. by rewrite Hback. }
  assert (Hpickle : fs' !! filename = Some (PickleFile problem)).
  { unfold fs'. rewrite lookup_insert_ne by (apply not_eq_sym, pickle_path_not_master).
    apply lookup_insert_eq. }
  eexists. split; [| split; [reflexivity |]; split; [apply lookup_insert_eq |];
                     split; [exact Hpickle |]; split].
  - unfold init_if_not_saved. rewrite lock_free by done.
    rewrite (init_body_build _ _ _ _ _ _ _ Hfind (or_intror eq_refl) Hinit Hsave).
    rewrite Hst. reflexivity.
  - intros f Hf1 Hf2. unfold fs'. by rewrite !lookup_insert_ne.
  - intros kwargs2 Hkw2.
    assert (Hfind2 : find_saved_problem fs' master kwargs2
                     = Ok (Some (Cell (VStr filename)), saved_probs')).
    { pose proof (find_after_save fs kwargs kwargs2 saved_probs problem Hfind Hcol Hback)
        as Hafter.
      rewrite Hst in Hafter. apply Hafter.
      - destruct Hkw2 as [-> | ->]; [by apply insert_subseteq | done].
      - destruct Hkw2 as [-> | ->]; [done | by apply insert_subseteq]. }
    assert (Hload : load_pickle fs' (Cell (VStr filename)) = Ok problem).
    { unfold load_pickle. by rewrite Hpickle. }
    split; [exact Hfind2 |]. split; [exact Hload |].
    unfold init_if_not_saved. rewrite lock_free by done.
    rewrite (init_body_hit _ _ _ _ _ Hfind2), Hload. eauto.
Qed.

End Init.

Lemma init_if_not_saved_adds_filename_to_kwargs_witness :
  (true = true \/ @None cell = None ->
   forall problem, cls_init class_P kwargs_a = Ok problem ->
   save_succeeds disk_fine class_P "models" (empty_frame ["filename"; "a"]) problem ->
   exists kwargs' fs' io',
     init_if_not_saved str_any disk_fine class_P "models" true (kwargs_a, ∅, stdio0)
       no_lock
     = Some (Ok problem, (kwargs', fs', io'), no_lock)
     /\ kwargs' = <["filename" := VStr (pickle_path class_P "models" 0)]> kwargs_a
     /\ kwargs' !! "filename" = Some (VStr (pickle_path class_P "models" 0))
     /\ fs' !! pickle_path class_P "models" 0 = Some (PickleFile problem))
  /\ (true = true \/ @None cell = None ->
      forall problem kwargs' fs' io' l',
        init_if_not_saved str_any disk_fine class_P "models" true (kwargs_a, ∅, stdio0)
          no_lock
        = Some (Ok problem, (kwargs', fs', io'), l') ->
        kwargs' = <["filename" := VStr (pickle_path class_P "models" 0)]> kwargs_a
        /\ fs' !! pickle_path class_P "models" 0 = Some (PickleFile problem))
  /\ (true = false ->
      forall found, @None cell = Some found ->
      exists io',
        init_if_not_saved str_any disk_fine class_P "models" true (kwargs_a, ∅, stdio0)
          no_lock
        = Some (load_pickle ∅ found, (kwargs_a, ∅, io'), no_lock)).
Proof.
  apply (init_if_not_saved_adds_filename_to_kwargs str_any disk_fine class_P "models" true
           kwargs_a ∅ stdio0 no_lock None (empty_frame ["filename"; "a"])).
  - reflexivity.
  - reflexivity.
Defined.

(** The first call on an empty store, and the dictionary it leaves. *)
Example init_if_not_saved_first_call :
  exists fs' io',
    init_if_not_saved str_any disk_fine class_P "models" true (kwargs_a, ∅, stdio0) no_lock
    = Some (Ok kwargs_a,
            ({[ "a" := VInt 1; "filename" := VStr "models/P_0.pkl" ]}, fs', io'),
            no_lock)
    /\ fs' !! "models/P_0.pkl" = Some (PickleFile kwargs_a)
    /\ fs' !! "models/P.csv"
       = Some (CsvFile (MkDataFrame ["filename"; "a"]
                 [ {[ "a" := VInt 1; "filename" := VStr "models/P_0.pkl" ]} ])).
Proof. do 2 eexists. split; [reflexivity |]. split; reflexivity. Qed.

Lemma init_if_not_saved_caches_once_witness :
  let filename := pickle_path class_P "models" 0 in
  let kwargs' := <["filename" := VStr filename]> kwargs_a in
  let saved_probs' := concat (empty_frame ["filename"; "a"]) (from_dict kwargs') in
  let fs' : gmap string (file (gmap string value)) :=
    <[master_path class_P "models" := CsvFile saved_probs']>
      (<[filename := PickleFile kwargs_a]> ∅) in
  exists io',
    init_if_not_saved str_any disk_fine class_P "models" false (kwargs_a, ∅, stdio0) no_lock
    = Some (Ok kwargs_a, (kwargs', fs', io'), no_lock)
    /\ rows saved_probs' = [] ++ [kwargs']
    /\ fs' !! master_path class_P "models" = Some (CsvFile saved_probs')
    /\ fs' !! filename = Some (PickleFile kwargs_a)
    /\ (forall f, f ≠ master_path class_P "models" -> f ≠ filename ->
          fs' !! f = (∅ : gmap string (file (gmap string value))) !! f)
    /\ forall kwargs2, kwargs2 = kwargs' \/ kwargs2 = kwargs_a ->
         find_saved_problem fs' (master_path class_P "models") kwargs2
         = Ok (Some (Cell (VStr filename)), saved_probs')
         /\ load_pickle fs' (Cell (VStr filename)) = Ok kwargs_a
         /\ exists io'',
              init_if_not_saved str_any disk_fine class_P "models" false
                (kwargs2, fs', io') no_lock
              = Some (Ok kwargs_a, (kwargs2, fs', io''), no_lock).
Proof.
  apply (init_if_not_saved_caches_once str_any disk_fine class_P "models" false kwargs_a
           ∅ stdio0 no_lock (empty_frame ["filename"; "a"]) kwargs_a).
  - reflexivity.
  - reflexivity.
  - apply list_elem_of_here.
  - reflexivity.
  - reflexivity.
  - reflexivity.
  - repeat split.
  - reflexivity.
Defined.

(** What the hypotheses on the disk exclude.  Without the folder the first
    call raises [FileNotFoundError] after its two lines are printed, and
    changes nothing.  When the instance cannot be pickled, the call raises and
    leaves the file it has created.  When the text [1] reads back as the
    integer 1, the row saved for [name = '1'] is not found again: the same
    keyword arguments give no file name, and a second call builds and saves a
    second instance. *)
Example init_if_not_saved_no_folder :
  init_if_not_saved str_any disk_no_folder class_P "models" true (kwargs_a, ∅, stdio0)
    no_lock
  = Some (Raise FileNotFoundError,
          (kwargs_a, ∅, io_saved str_any None stdio0), no_lock).
Proof. reflexivity. Qed.

Example init_if_not_saved_no_pickle :
  init_if_not_saved str_any disk_no_pickle class_P "models" true (kwargs_a, ∅, stdio0)
    no_lock
  = Some (Raise AttributeError,
          (kwargs_a, {[ "models/P_0.pkl" := OtherFile "" ]}, io_saved str_any None stdio0),
          no_lock).
Proof. reflexivity. Qed.

Example init_if_not_saved_retyped_not_found :
  exists kwargs' fs' io' table,
    init_if_not_saved str_any disk_retyping class_P "models" false
      (kwargs_name1, ∅, stdio0) no_lock
    = Some (Ok kwargs_name1, (kwargs', fs', io'), no_lock)
    /\ find_saved_problem fs' "models/P.csv" kwargs_name1 = Ok (None, table)
    /\ rows table = [ {[ "filename" := VStr "models/P_0.pkl"; "name" := VInt 1 ]} ]
    /\ exists kwargs'' fs'' io'' table',
         init_if_not_saved str_any disk_retyping class_P "models" false
           (kwargs_name1, fs', io') no_lock
         = Some (Ok kwargs_name1, (kwargs'', fs'', io''), no_lock)
         /\ fs'' !! "models/P.csv" = Some (CsvFile table')
         /\ length (rows table') = 2
         /\ fs'' !! "models/P_1.pkl" = Some (PickleFile kwargs_name1).
Proof.
  do 4 eexists. split; [reflexivity |]. split; [reflexivity |]. split; [reflexivity |].
  do 4 eexists. split; [reflexivity |].
  split; [reflexivity |]. split; reflexivity.
Qed.

(** C1 as stated fails.  The combination [a = 1, b = 2] has never been
    cached: no row of [index_a] has these two values.  Yet the call with
    [load_new] false finds the row saved for [a = 1], because [b] is not a
    column, and returns that instance: the index keeps its one row, no file
    is written, and [kwargs] stays as it was. *)
Lemma init_if_not_saved_new_key_hits_old_row :
  (forall r, r ∈ rows index_a ->
     ~ forall k v, kwargs_ab !! k = Some v -> r !! k = Some v)
  /\ exists io',
       init_if_not_saved str_any disk_fine class_P "models" false (kwargs_ab, fs_a, stdio0)
         no_lock
       = Some (Ok kwargs_a, (kwargs_ab, fs_a, io'), no_lock).
Proof.
  split.
  - intros r ->%list_elem_of_singleton Hall.
    specialize (Hall "b" (VInt 2) eq_refl). discriminate Hall.
  - eexists. reflexivity.
Qed.

Lemma find_saved_problem_missing_file_witness :
  exists table,
    find_saved_problem (∅ : gmap string (file unit)) "models/P.csv" kwargs_ab
    = Ok (None, table)
    /\ list_to_set (columns table) =@{gset string} {["filename"]} ∪ dom kwargs_ab
    /\ NoDup (columns table)
    /\ rows table = [].
Proof.
  apply (find_saved_problem_missing_file ∅ "models/P.csv" kwargs_ab); reflexivity.
Defined.

(** C2 as stated fails.  There is no file at [models/P.csv], and [kwargs]
    has a key named [filename]: the frame built for the missing file has two
    columns of that label, and the lookup raises [ValueError] instead of
    returning [None] and a table. *)
Lemma find_saved_problem_missing_file_filename_key :
  (∅ : gmap string (file unit)) !! "models/P.csv" = None
  /\ find_saved_problem (∅ : gmap string (file unit)) "models/P.csv"
       {[ "filename" := VStr "x" ]}
     = Raise ValueError.
Proof. split; reflexivity. Qed.

Lemma lock_released_when_body_raises_witness :
  let fn := init_if_not_saved_body str_any disk_fine class_failing "models" true in
  let st' := (kwargs_a, (∅ : gmap string (file unit)),
              print_ "Problem Saved as: None" stdio0) in
  (holder no_lock = None ->
   lock fn (kwargs_a, ∅, stdio0) no_lock = Some (Raise ValueError, st', no_lock))
  /\ (forall out, lock fn (kwargs_a, ∅, stdio0) no_lock = Some out ->
        out = (Raise ValueError, st', no_lock) /\ holder (snd out) = None).
Proof.
  intros fn st'.
  apply (lock_released_when_body_raises fn (kwargs_a, ∅, stdio0) st' ValueError no_lock).
  reflexivity.
Defined.

(** * Further properties *)

(** ** [trim_left] *)

Lemma indices_leading_ones (k : nat) (sh : list nat) :
  indices (replicate k 1 ++ sh) = (fun idx => replicate k 0 ++ idx) <$> indices sh.
Proof.
  induction k as [|k IH]; simpl.
  - by rewrite list_fmap_id.
  - rewrite IH, app_nil_r, <- list_fmap_compose. reflexivity.
Qed.

(** X1. What [trim_left] returns is its input without the leading dimensions
    of size 1: the entries are the same, in the same order, the entry at
    [idx] being the input's at [(0, ..., 0) + idx]; and trimming the result
    again gives it back. *)
Theorem trim_left_keeps_entries {A} (t r : tensor A) :
  trim_left t = Ok r ->
  exists k, shape t = replicate k 1 ++ shape r
            /\ (forall idx, elem r idx = elem t (replicate k 0 ++ idx))
            /\ entries r = entries t
            /\ trim_left r = Ok r.
Proof.
  intros Hr. destruct (trim_left_from_shape _ _ _ Hr) as (k & Hsh & Hel).
  exists k. split; [exact Hsh |]. split; [exact Hel |]. split.
  - unfold entries. rewrite Hsh, indices_leading_ones, <- list_fmap_compose.
    apply list_fmap_ext. intros _ idx _. apply Hel.
  - destruct (ones_or_other (shape t)) as [H1 | H1].
    + unfold trim_left in Hr. rewrite (trim_left_from_ones _ _ H1) in Hr. discriminate.
    + destruct (trim_left_from_other _ (elem t) H1) as (r' & d & sh & Hr' & Hshr & Hd).
      unfold trim_left in Hr. rewrite Hr in Hr'. injection Hr' as <-.
      destruct r as [rsh rf]. simpl in *. subst rsh. unfold trim_left. simpl.
      by rewrite (proj2 (Nat.eqb_neq d 1)).
Qed.

Lemma trim_left_keeps_entries_witness :
  let t := Tensor [1; 1; 2] (fun idx => idx) in
  let r := Tensor [2] (fun idx => 0 :: 0 :: idx) in
  exists k, shape t = replicate k 1 ++ shape r
            /\ (forall idx, elem r idx = elem t (replicate k 0 ++ idx))
            /\ entries r = entries t
            /\ trim_left r = Ok r.
Proof.
  intros t r. apply (trim_left_keeps_entries t r). reflexivity.
Defined.

(** ** [gather_incomplete_left] *)

Section GatherGeneral.

Context {A : Type}.

Lemma zip_with_bcast_in_bounds (sh idx : list nat) :
  Forall2 lt idx sh -> zip_with (fun d i => if d =? 1 then 0 else i) sh idx = idx.
Proof.
  induction 1 as [|i d idx sh Hid _ IH]; simpl; [reflexivity |].
  rewrite IH. destruct (Nat.eqb_spec d 1) as [-> | _]; [| reflexivity].
  by replace i with 0 by lia.
Qed.

Lemma expand_dims_ones (q : list nat) :
  Torch.expand_dims (replicate (length q) 1) (Z.of_nat <$> q) = Ok q.
Proof.
  induction q as [|p q IH]; [reflexivity |].
  cbn [length replicate fmap list_fmap Torch.expand_dims].
  rewrite expand_dim_one. cbn [mbind result_bind].
  change (list_fmap nat Z Z.of_nat q) with (Z.of_nat <$> q). by rewrite IH.
Qed.

Lemma expand_dims_keep (s sh : list nat) (sizes : list Z) :
  Torch.expand_dims (s ++ sh) (replicate (length s) (-1)%Z ++ sizes)
  = (fun rest => s ++ rest) <$> Torch.expand_dims sh sizes.
Proof.
  induction s as [|d s IH]; simpl.
  - by destruct (Torch.expand_dims sh sizes).
  - rewrite IH. by destruct (Torch.expand_dims sh sizes).
Qed.

Lemma gather_sizes_ok_middle (s q : list nat) (a b : nat) :
  Torch.gather_sizes_ok (length s) (s ++ a :: q) (s ++ b :: q) = true.
Proof.
  induction s as [|d s IH]; simpl.
  - induction q as [|p q IHq]; [reflexivity |]. simpl. by rewrite Nat.leb_refl.
  - by rewrite Nat.leb_refl, IH.
Qed.

Lemma expand_index (s q : list nat) (ix : list nat -> Z) :
  Torch.expand (replicate (length s + 1) (-1)%Z ++ (Z.of_nat <$> q))
    (Torch.unsqueeze_right (S (length q)) (Tensor s ix))
  = Ok (Tensor (s ++ 1 :: q)
          (fun idx => ix (take (length s)
                            (Torch.bcast_index (s ++ replicate (S (length q)) 1) idx)))).
Proof.
  unfold Torch.expand, Torch.unsqueeze_right, ndim. cbn [shape elem].
  rewrite !length_app, !length_replicate, length_fmap.
  rewrite (proj2 (Nat.ltb_ge _ _)) by (simpl; lia).
  replace (length s + 1 + length q - (length s + S (length q))) with 0 by lia.
  rewrite take_0, drop_0. cbn [mapM_result mbind result_bind app].
  rewrite replicate_add. cbn [replicate]. rewrite <- app_assoc. cbn [app].
  rewrite expand_dims_keep. cbn [Torch.expand_dims].
  rewrite expand_dim_keep. cbn [mbind result_bind].
  rewrite expand_dims_ones. reflexivity.
Qed.

Lemma gather_middle (s q : list nat) (m : nat) (v : list nat -> A) (index : tensor Z) :
  shape index = s ++ 1 :: q ->
  (forall idx, Forall2 lt idx (s ++ 1 :: q) ->
     (0 <= elem index idx < Z.of_nat m)%Z) ->
  Torch.gather (length s) index (Tensor (s ++ m :: q) v)
  = Ok (Tensor (s ++ 1 :: q)
          (fun idx => v (<[length s := Z.to_nat (elem index idx)]> idx))).
Proof.
  intros Hsh Hrange. unfold Torch.gather, ndim. cbn [shape elem].
  rewrite list_lookup_middle by done. rewrite Hsh, !length_app. cbn [length].
  rewrite Nat.eqb_refl. cbn [negb]. rewrite gather_sizes_ok_middle. cbn [negb].
  rewrite forallb_indices; [reflexivity |].
  intros idx Hidx. destruct (Hrange idx Hidx) as [H0 Hm].
  apply andb_true_intro. split; [by apply Z.leb_le | by apply Z.ltb_lt].
Qed.

Lemma squeeze_middle (s q : list nat) (g : list nat -> A) :
  Torch.squeeze (length s) (Tensor (s ++ 1 :: q) g)
  = Ok (Tensor (s ++ q)
          (fun idx => g (take (length s) idx ++ 0 :: drop (length s) idx))).
Proof.
  unfold Torch.squeeze. cbn [shape elem].
  rewrite list_lookup_middle by done. cbn [Nat.eqb]. by rewrite delete_middle.
Qed.

(** Reading the broadcast index tensor at an index of the gathered shape. *)
Lemma take_bcast_index (s q a c : list nat) (j : nat) :
  Forall2 lt a s -> length c = length q ->
  take (length s) (Torch.bcast_index (s ++ replicate (S (length q)) 1) (a ++ j :: c)) = a.
Proof.
  intros Ha Hc. pose proof (Forall2_length _ _ _ Ha) as Hlen.
  unfold Torch.bcast_index.
  rewrite !length_app, length_replicate. cbn [length].
  replace (length a + S (length c) - (length s + S (length q))) with 0 by lia.
  rewrite drop_0, zip_with_app by done.
  rewrite zip_with_bcast_in_bounds by done.
  by rewrite take_app_length' by done.
Qed.

(** X2. [gather_incomplete_left] on an index tensor of shape [s] and a value
    tensor of shape [s + (m,) + q], the index entries lying in [0, m): the
    result has shape [s + q], and its entry at [a + c] is the value's entry
    at [a + (index[a],) + c].  The index picks, for each position of its own,
    one slice along the value's next dimension. *)
Theorem gather_incomplete_left_selects (s q : list nat) (m : nat)
    (value : tensor A) (index : tensor Z) :
  shape index = s ->
  shape value = s ++ m :: q ->
  (forall a, Forall2 lt a s -> (0 <= elem index a < Z.of_nat m)%Z) ->
  exists r, gather_incomplete_left value index = Ok r
            /\ shape r = s ++ q
            /\ forall a c, Forall2 lt a s -> Forall2 lt c q ->
                 elem r (a ++ c) = elem value (a ++ Z.to_nat (elem index a) :: c).
Proof.
  destruct value as [vsh v], index as [ish ix]. cbn [shape elem]. intros -> -> Hix.
  unfold gather_incomplete_left, ndim. cbn [shape elem].
  replace (length (s ++ m :: q) - length s) with (S (length q))
    by (rewrite length_app; simpl; lia).
  replace (drop (length s + 1) (s ++ m :: q)) with q
    by (rewrite drop_app_add'; [reflexivity | reflexivity]).
  rewrite expand_index. cbn [mbind result_bind].
  rewrite (gather_middle s q m v); [| reflexivity |].
  - cbn [mbind result_bind elem]. rewrite squeeze_middle.
    eexists. split; [reflexivity |]. split; [reflexivity |].
    intros a c Ha Hc. cbn [elem].
    pose proof (Forall2_length _ _ _ Ha) as Hlen.
    rewrite take_app_length', drop_app_length' by done.
    rewrite take_bcast_index by (done || by eapply Forall2_length).
    rewrite <- Hlen, insert_app_r_alt by done. by rewrite Nat.sub_diag.
  - intros idx (a & jc & Ha & Hjc & ->)%Forall2_app_inv_r. cbn [elem].
    inversion Hjc as [|j ? c ? Hj Hc]; subst.
    rewrite take_bcast_index by (done || by eapply Forall2_length).
    by apply Hix.
Qed.

End GatherGeneral.

(** A matrix of shape (3,4) whose entry at [(i,j)] is [10 i + j], and a column
    choice for each row. *)
Lemma gather_incomplete_left_selects_witness :
  let value := Tensor [3; 4] (fun idx => match idx with
                                         | [i; j] => Z.of_nat (10 * i + j)
                                         | _ => 0%Z
                                         end) in
  let index := Tensor [3] (fun idx => match idx with
                                      | [i] => Z.of_nat (3 - i)
                                      | _ => 0%Z
                                      end) in
  exists r, gather_incomplete_left value index = Ok r
            /\ shape r = [3] ++ []
            /\ forall a c, Forall2 lt a [3] -> Forall2 lt c [] ->
                 elem r (a ++ c) = elem value (a ++ Z.to_nat (elem index a) :: c).
Proof.
  intros value index.
  apply (gather_incomplete_left_selects [3] [] 4 value index); [reflexivity | reflexivity |].
  intros a Ha. inversion Ha as [|i ? a' ? Hi Ha']; subst. inversion Ha'; subst.
  cbn. lia.
Defined.

Example gather_incomplete_left_rows :
  entries <$> gather_incomplete_left
    (Tensor [3; 4] (fun idx => match idx with
                               | [i; j] => Z.of_nat (10 * i + j)
                               | _ => 0%Z
                               end))
    (Tensor [3] (fun idx => match idx with
                            | [i] => Z.of_nat (3 - i)
                            | _ => 0%Z
                            end))
  = Ok [3; 12; 21]%Z.
Proof. reflexivity. Qed.

Lemma in_bounds_indices (sh idx : list nat) :
  Forall2 lt idx sh -> idx ∈ indices sh.
Proof.
  induction 1 as [|i d idx sh Hid _ IH]; simpl.
  - apply list_elem_of_here.
  - apply list_elem_of_bind. exists i. split.
    + apply list_elem_of_fmap. by exists idx.
    + apply elem_of_seq. lia.
Qed.

Lemma forallb_indices_false (sh idx : list nat) (p : list nat -> bool) :
  Forall2 lt idx sh -> p idx = false -> forallb p (indices sh) = false.
Proof.
  intros Hidx Hp. destruct (forallb p (indices sh)) eqn:Hall; [| reflexivity].
  rewrite forallb_forall in Hall.
  rewrite (Hall idx) in Hp; [discriminate |].
  by apply list_elem_of_In, in_bounds_indices.
Qed.

Section GatherErrors.

Context {A : Type}.

(** X3. An index entry outside [0, m), negative ones included, makes
    [gather_incomplete_left] raise, as soon as the value tensor has a slice
    to read (no trailing dimension of size 0). *)
Theorem gather_incomplete_left_out_of_range (s q a : list nat) (m : nat)
    (value : tensor A) (index : tensor Z) :
  shape index = s ->
  shape value = s ++ m :: q ->
  Forall (fun d => 0 < d) q ->
  Forall2 lt a s ->
  ~ (0 <= elem index a < Z.of_nat m)%Z ->
  gather_incomplete_left value index = Raise RuntimeError.
Proof.
  destruct value as [vsh v], index as [ish ix]. cbn [shape elem].
  intros -> -> Hq Ha Hbad.
  unfold gather_incomplete_left, ndim. cbn [shape elem].
  replace (length (s ++ m :: q) - length s) with (S (length q))
    by (rewrite length_app; simpl; lia).
  replace (drop (length s + 1) (s ++ m :: q)) with q
    by (rewrite drop_app_add'; [reflexivity | reflexivity]).
  rewrite expand_index. cbn [mbind result_bind].
  unfold Torch.gather, ndim. cbn [shape elem].
  rewrite list_lookup_middle by done. rewrite !length_app. cbn [length].
  rewrite Nat.eqb_refl. cbn [negb]. rewrite gather_sizes_ok_middle. cbn [negb].
  rewrite (forallb_indices_false _ (a ++ 0 :: replicate (length q) 0)); [reflexivity | |].
  - apply Forall2_app; [done |]. constructor; [lia |].
    clear -Hq. induction Hq; simpl; by constructor.
  - rewrite take_bcast_index by (done || by rewrite length_replicate).
    apply andb_false_iff.
    destruct (Z.leb_spec 0 (ix a)); [| by left]. right.
    apply Z.ltb_ge. lia.
Qed.

(** X4. When the value tensor has no more dimensions than the index tensor,
    [gather_incomplete_left] raises: the index cannot be expanded over a
    dimension that does not exist. *)
Theorem gather_incomplete_left_rank_too_small (value : tensor A) (index : tensor Z) :
  ndim value <= ndim index ->
  gather_incomplete_left value index = Raise RuntimeError.
Proof.
  intros Hrank. unfold gather_incomplete_left, Torch.expand, Torch.unsqueeze_right, ndim in *.
  cbn [shape elem].
  replace (length (shape value) - length (shape index)) with 0 by lia.
  rewrite drop_ge by lia. cbn [replicate fmap list_fmap]. rewrite !app_nil_r.
  rewrite length_replicate.
  rewrite (proj2 (Nat.ltb_ge _ _)) by lia.
  replace (length (shape index) + 1 - length (shape index)) with 1 by lia.
  rewrite Nat.add_1_r. reflexivity.
Qed.

End GatherErrors.

Lemma gather_incomplete_left_out_of_range_witness :
  gather_incomplete_left (Tensor [2; 3] (fun _ => 0%Z)) (Tensor [2] (fun _ => (-1)%Z))
  = Raise RuntimeError.
Proof.
  apply (gather_incomplete_left_out_of_range [2] [] [0] 3); try reflexivity.
  - constructor.
  - repeat constructor.
  - cbn. lia.
Defined.

Lemma gather_incomplete_left_rank_too_small_witness :
  gather_incomplete_left (Tensor [4] (fun _ => 0%Z)) (Tensor [4] (fun _ => 0%Z))
  = Raise RuntimeError.
Proof.
  apply gather_incomplete_left_rank_too_small. cbn. lia.
Defined.

(** ** [solve_lineqn] *)

Section SolveBatch.

Variable linalg_solve : tensor Qc -> tensor Qc -> result (tensor Qc).

Lemma broadcast_rev_nil_r (r : list nat) : Torch.broadcast_rev r [] = Ok r.
Proof. by destruct r. Qed.

Lemma broadcast_batch_square (batch : list nat) (n : nat) :
  Torch.broadcast_shapes (batch ++ [n; n]) [n; n] = Ok (batch ++ [n; n]).
Proof.
  unfold Torch.broadcast_shapes.
  replace (reverse (batch ++ [n; n])) with (n :: n :: reverse batch)
    by (by rewrite reverse_app).
  change (reverse [n; n]) with [n; n]. cbn [Torch.broadcast_rev].
  rewrite !Nat.eqb_refl. cbn [mbind result_bind].
  rewrite broadcast_rev_nil_r. cbn [mbind result_bind fmap result_fmap].
  f_equal. rewrite !reverse_cons, reverse_involutive, <- app_assoc. reflexivity.
Qed.

Lemma bcast_index_trailing (batch bidx : list nat) (n i j : nat) :
  length bidx = length batch -> i < n -> j < n ->
  Torch.bcast_index [n; n] (bidx ++ [i; j]) = [i; j].
Proof.
  intros Hlen Hi Hj. unfold Torch.bcast_index. rewrite length_app. cbn [length].
  replace (length bidx + 2 - 2) with (length bidx) by lia.
  rewrite drop_app_length. simpl.
  destruct (Nat.eqb_spec n 1) as [-> | _]; [| reflexivity].
  by replace i with 0 by lia; replace j with 0 by lia.
Qed.

(** X5. For a batch of square matrices (shape [batch + (n, n)]) on which the
    solver raises a [RuntimeError], [solve_lineqn] retries on the batch in
    which [eps] has been added to the diagonal of every matrix, and returns
    the solver's outcome on it. *)
Theorem solve_lineqn_regularises_each_matrix (A b : tensor Qc) (eps : Qc) (io : stdio)
    (batch : list nat) (n : nat) (e : exn) :
  shape A = batch ++ [n; n] ->
  linalg_solve A b = Raise e ->
  is_RuntimeError e = true ->
  exists A',
    solve_lineqn linalg_solve A b eps io
    = (linalg_solve A' b, print_ "WARNING: The matrix was singular" io)
    /\ shape A' = batch ++ [n; n]
    /\ forall bidx i j, Forall2 lt bidx batch -> i < n -> j < n ->
         elem A' (bidx ++ [i; j])
         = (elem A (bidx ++ [i; j]) + eps * (if i =? j then 1 else 0))%Qc.
Proof.
  intros Hsh Hfail Hrt. unfold solve_lineqn. rewrite Hfail, Hrt, Hsh.
  replace (last (batch ++ [n; n])) with (Some n)
    by (change (batch ++ [n; n]) with (batch ++ [n] ++ [n]);
        by rewrite app_assoc, last_snoc).
  cbn [from_option mbind result_bind]. unfold Torch.add, Torch.map2.
  rewrite Hsh. cbn [shape Torch.scale Torch.map Torch.eye].
  rewrite broadcast_batch_square. cbn [mbind result_bind].
  eexists. split; [reflexivity |]. split; [reflexivity |].
  intros bidx i j Hb Hi Hj. cbn [elem Torch.scale Torch.map Torch.eye].
  rewrite bcast_index_in_bounds
    by (apply Forall2_app; [done | repeat constructor; lia]).
  rewrite (bcast_index_trailing batch) by (done || by eapply Forall2_length).
  reflexivity.
Qed.

End SolveBatch.

Lemma solve_lineqn_regularises_each_matrix_witness :
  let solver := fun _ _ : tensor Qc => @Raise (tensor Qc) LinAlgError in
  let A := Tensor [3; 2; 2] (fun _ => 1%Qc) in
  exists A',
    solve_lineqn solver A ones2 eps5 stdio0
    = (solver A' ones2, print_ "WARNING: The matrix was singular" stdio0)
    /\ shape A' = [3] ++ [2; 2]
    /\ forall bidx i j, Forall2 lt bidx [3] -> i < 2 -> j < 2 ->
         elem A' (bidx ++ [i; j])
         = (elem A (bidx ++ [i; j]) + eps5 * (if i =? j then 1 else 0))%Qc.
Proof.
  intros solver A.
  apply (solve_lineqn_regularises_each_matrix solver A ones2 eps5 stdio0 [3] 2 LinAlgError);
    reflexivity.
Defined.

(** ** [View] *)

Lemma prod_app (l1 l2 : list nat) : Torch.prod (l1 ++ l2) = Torch.prod l1 * Torch.prod l2.
Proof.
  unfold Torch.prod. induction l1 as [|d l1 IH]; simpl; [lia |]. rewrite IH. lia.
Qed.

Lemma length_indices (sh : list nat) : length (indices sh) = Torch.prod sh.
Proof.
  induction sh as [|d sh IH]; [reflexivity |].
  cbn [indices]. change (Torch.prod (d :: sh)) with (d * Torch.prod sh).
  rewrite <- IH. generalize 0 as start.
  induction d as [|d IHd]; intros start; [reflexivity |].
  cbn [seq mbind list_bind]. rewrite length_app, length_fmap, IHd. lia.
Qed.

Lemma ravel_lt (sh idx : list nat) :
  Forall2 lt idx sh -> Torch.ravel sh idx < Torch.prod sh.
Proof.
  induction 1 as [|i d idx sh Hid _ IH]; [cbn; lia |].
  cbn [Torch.ravel]. change (Torch.prod (d :: sh)) with (d * Torch.prod sh). nia.
Qed.

Lemma ravel_app (batch sh b j : list nat) :
  length b = length batch ->
  Torch.ravel (batch ++ sh) (b ++ j)
  = Torch.ravel batch b * Torch.prod sh + Torch.ravel sh j.
Proof.
  revert b. induction batch as [|d batch IH]; intros [|i b] Hlen; try discriminate.
  - reflexivity.
  - cbn [app Torch.ravel]. rewrite IH by (simpl in Hlen; lia).
    rewrite prod_app. lia.
Qed.

Lemma unravel_ravel (sh idx : list nat) :
  Forall2 lt idx sh -> Torch.unravel sh (Torch.ravel sh idx) = idx.
Proof.
  induction 1 as [|i d idx sh Hid Hrest IH]; [reflexivity |].
  cbn [Torch.ravel Torch.unravel]. pose proof (ravel_lt _ _ Hrest) as Hlt.
  rewrite Nat.div_add_l by lia. rewrite (Nat.div_small _ _ Hlt), Nat.add_0_r.
  f_equal. rewrite Nat.add_comm, Nat.Div0.mod_add, Nat.mod_small by lia. exact IH.
Qed.

Lemma sizes_of_nat (sh : list nat) :
  existsb (fun s => (s <? -1)%Z) (Z.of_nat <$> sh) = false
  /\ filter (fun s => s = (-1)%Z) (Z.of_nat <$> sh) = []
  /\ filter (fun s => s ≠ (-1)%Z) (Z.of_nat <$> sh) = Z.of_nat <$> sh
  /\ Z.to_nat <$> (Z.of_nat <$> sh) = sh.
Proof.
  induction sh as [|d sh (IH1 & IH2 & IH3 & IH4)]; [done |].
  rewrite !fmap_cons. repeat split.
  - cbn [existsb]. rewrite IH1.
    destruct (Z.ltb_spec (Z.of_nat d) (-1)); [lia | reflexivity].
  - rewrite filter_cons_False by lia. exact IH2.
  - rewrite filter_cons_True by lia. by rewrite IH3.
  - rewrite IH4. f_equal. lia.
Qed.

Lemma infer_size_nat (sh : list nat) (n : nat) :
  Torch.infer_size (Z.of_nat <$> sh) n
  = if Torch.prod sh =? n then Ok sh else Raise RuntimeError.
Proof.
  unfold Torch.infer_size. destruct (sizes_of_nat sh) as (-> & -> & -> & ->).
  reflexivity.
Qed.

Lemma removelast_snoc {X} (l : list X) (x : X) : removelast (l ++ [x]) = l.
Proof. by rewrite removelast_last. Qed.

Section ViewForward.

Context {A : Type}.

(** X6. [View(sh).forward] on an input of shape [batch + (n,)] with [n] the
    number of entries of [sh] returns a tensor of shape [batch + sh] that
    keeps every batch position and reads the last dimension in row-major
    order: the entry at [b + j] is the input's entry at [b + (ravel j,)]. *)
Theorem View_forward_reshapes_last_dimension (sh batch : list nat) (n : nat)
    (input : tensor A) :
  shape input = batch ++ [n] ->
  n = Torch.prod sh ->
  exists out,
    View_forward (MkView (Z.of_nat <$> sh)) input = Ok out
    /\ shape out = batch ++ sh
    /\ forall b j, Forall2 lt b batch -> Forall2 lt j sh ->
         elem out (b ++ j) = elem input (b ++ [Torch.ravel sh j]).
Proof.
  intros Hsh ->. unfold View_forward, Torch.view. cbn [view_shape].
  rewrite Hsh, removelast_snoc, <- fmap_app, infer_size_nat.
  unfold numel. rewrite Hsh, length_indices, !prod_app.
  replace (Torch.prod [Torch.prod sh]) with (Torch.prod sh) by (cbn; lia).
  rewrite Nat.eqb_refl. cbn [mbind result_bind].
  eexists. split; [reflexivity |]. split; [reflexivity |].
  intros b j Hb Hj. cbn [elem]. f_equal.
  pose proof (Forall2_length _ _ _ Hb) as Hlen.
  pose proof (ravel_lt _ _ Hj) as Hlt.
  rewrite ravel_app by done.
  replace (Torch.ravel batch b * Torch.prod sh + Torch.ravel sh j)
    with (Torch.ravel (batch ++ [Torch.prod sh]) (b ++ [Torch.ravel sh j])).
  - apply unravel_ravel. apply Forall2_app; [done |]. by repeat constructor.
  - rewrite ravel_app by done. cbn. lia.
Qed.

(** X7. When the last dimension of the input does not have as many entries
    as [sh], and the input is not empty, [View(sh).forward] raises. *)
Theorem View_forward_size_mismatch (sh batch : list nat) (n : nat) (input : tensor A) :
  shape input = batch ++ [n] ->
  Torch.prod batch ≠ 0 ->
  n ≠ Torch.prod sh ->
  View_forward (MkView (Z.of_nat <$> sh)) input = Raise RuntimeError.
Proof.
  intros Hsh Hbatch Hn. unfold View_forward, Torch.view. cbn [view_shape].
  rewrite Hsh, removelast_snoc, <- fmap_app, infer_size_nat.
  unfold numel. rewrite Hsh, length_indices, !prod_app.
  replace (Torch.prod [n]) with n by (cbn; lia).
  rewrite (proj2 (Nat.eqb_neq _ _)); [reflexivity |]. nia.
Qed.

End ViewForward.

Lemma View_forward_reshapes_last_dimension_witness :
  let input := Tensor [2; 6] (fun idx => idx) in
  exists out,
    View_forward (MkView (Z.of_nat <$> [2; 3])) input = Ok out
    /\ shape out = [2] ++ [2; 3]
    /\ forall b j, Forall2 lt b [2] -> Forall2 lt j [2; 3] ->
         elem out (b ++ j) = elem input (b ++ [Torch.ravel [2; 3] j]).
Proof.
  intros input.
  apply (View_forward_reshapes_last_dimension [2; 3] [2] 6 input); reflexivity.
Defined.

Lemma View_forward_size_mismatch_witness :
  View_forward (MkView (Z.of_nat <$> [4])) (Tensor [2; 6] (fun idx => idx))
  = Raise RuntimeError.
Proof.
  apply (View_forward_size_mismatch [4] [2] 6); [reflexivity | cbn; lia | cbn; lia].
Defined.

(** With a size [-1], the size is worked out from the last dimension. *)
Example View_forward_infers :
  shape <$> View_forward (MkView [-1; 3]%Z) (Tensor [2; 6] (fun idx => idx))
  = Ok [2; 2; 3].
Proof. reflexivity. Qed.

Lemma bind_seq_blocks (P a d : nat) :
  (seq a d ≫= fun i => seq (i * P) P) = seq (a * P) (d * P).
Proof.
  revert a. induction d as [|d IH]; intros a; [reflexivity |].
  rewrite <- cons_seq, bind_cons, IH.
  replace (S d * P) with (P + d * P) by lia. rewrite seq_app. do 2 f_equal. lia.
Qed.

Lemma fmap_bind_list {X Y Z} (f : Y -> Z) (g : X -> list Y) (l : list X) :
  f <$> (l ≫= g) = l ≫= (fun x => f <$> g x).
Proof.
  induction l as [|x l IH]; [reflexivity |].
  by rewrite !bind_cons, fmap_app, IH.
Qed.

Lemma ravel_indices (sh : list nat) :
  Torch.ravel sh <$> indices sh = seq 0 (Torch.prod sh).
Proof.
  induction sh as [|d sh IH]; [reflexivity |].
  cbn [indices]. change (Torch.prod (d :: sh)) with (d * Torch.prod sh).
  change (seq 0 (d * Torch.prod sh)) with (seq (0 * Torch.prod sh) (d * Torch.prod sh)).
  rewrite <- bind_seq_blocks, fmap_bind_list.
  apply list_bind_ext; [| reflexivity].
  intros i. rewrite <- list_fmap_compose.
  transitivity (Nat.add (i * Torch.prod sh) <$> (Torch.ravel sh <$> indices sh)).
  { by rewrite <- list_fmap_compose. }
  by rewrite IH, fmap_add_seq, Nat.add_0_r.
Qed.

Lemma indices_unravel (sh : list nat) :
  indices sh = Torch.unravel sh <$> seq 0 (Torch.prod sh).
Proof.
  rewrite <- ravel_indices, <- list_fmap_compose.
  rewrite <- (list_fmap_id (indices sh)) at 1.
  apply list_fmap_ext. intros _ idx Hidx%list_elem_of_lookup_2. simpl.
  symmetry. by apply unravel_ravel, indices_in_bounds.
Qed.

(** The sizes worked out by [infer_size], with [x] in place of each [-1]. *)
Lemma prod_inferred (sizes : list Z) (x : nat) :
  Torch.prod ((fun s => if (s =? -1)%Z then x else Z.to_nat s) <$> sizes)
  = Torch.prod (Z.to_nat <$> filter (fun s => s ≠ (-1)%Z) sizes)
    * x ^ length (filter (fun s => s = (-1)%Z) sizes).
Proof.
  induction sizes as [|s sizes IH]; [reflexivity |].
  rewrite fmap_cons. change (Torch.prod (?a :: ?l)) with (a * Torch.prod l). rewrite IH.
  destruct (Z.eqb_spec s (-1)) as [-> | Hs].
  - rewrite (filter_cons_False (fun s => s ≠ (-1)%Z)) by (intros H; by apply H).
    rewrite (filter_cons_True (fun s => s = (-1)%Z)) by done.
    cbn [length Nat.pow]. lia.
  - rewrite (filter_cons_True (fun s => s ≠ (-1)%Z)) by done.
    rewrite (filter_cons_False (fun s => s = (-1)%Z)) by done. rewrite fmap_cons.
    change (Torch.prod (?a :: ?l)) with (a * Torch.prod l). lia.
Qed.

Lemma fmap_inferred_none (sizes : list Z) (x : nat) :
  filter (fun s => s = (-1)%Z) sizes = [] ->
  (fun s => if (s =? -1)%Z then x else Z.to_nat s) <$> sizes = Z.to_nat <$> sizes.
Proof.
  induction sizes as [|s sizes IH]; [reflexivity |]. rewrite !fmap_cons.
  destruct (Z.eqb_spec s (-1)) as [-> | Hs].
  - by rewrite filter_cons_True.
  - rewrite filter_cons_False by done. intros H. by rewrite IH.
Qed.

Lemma infer_size_prod (sizes : list Z) (n : nat) (sh : list nat) :
  Torch.infer_size sizes n = Ok sh -> Torch.prod sh = n.
Proof.
  unfold Torch.infer_size. destruct (existsb _ sizes); [discriminate |].
  destruct (filter (fun s => s = (-1)%Z) sizes) as [|s1 [|s2 rest]] eqn:Hminus;
    cbn [length]; [| | discriminate].
  - destruct (Nat.eqb_spec (Torch.prod (Z.to_nat <$> filter (fun s => s ≠ (-1)%Z) sizes)) n)
      as [Hk | _]; [| discriminate].
    intros [= <-]. rewrite <- (fmap_inferred_none sizes 0 Hminus).
    rewrite prod_inferred, Hminus. cbn [length Nat.pow]. lia.
  - set (known := Torch.prod (Z.to_nat <$> filter (fun s => s ≠ (-1)%Z) sizes)).
    destruct (Nat.ltb_spec 0 known) as [Hpos | _]; [| discriminate].
    destruct (Nat.eqb_spec (n mod known) 0) as [Hmod | _]; [| discriminate].
    cbn [andb]. intros [= <-]. rewrite prod_inferred, Hminus. fold known.
    cbn [length Nat.pow]. rewrite Nat.mul_1_r.
    symmetry. by apply Nat.Div0.div_exact.
Qed.

Section ViewEntries.

Context {A : Type}.

Lemma view_entries (sizes : list Z) (t out : tensor A) :
  Torch.view sizes t = Ok out -> entries out = entries t.
Proof.
  unfold Torch.view. destruct (Torch.infer_size sizes (numel t)) as [sh |] eqn:Hsh;
    [| discriminate].
  cbn [mbind result_bind]. intros [= <-].
  apply infer_size_prod in Hsh. unfold numel in Hsh. rewrite length_indices in Hsh.
  unfold entries. cbn [shape elem].
  rewrite (indices_unravel (shape t)), <- Hsh, <- (ravel_indices sh).
  by rewrite <- !list_fmap_compose.
Qed.

(** X8. Whenever [View.forward] returns, with or without a size [-1] to work
    out, its result holds the entries of the input in the same row-major
    order, and as many of them. *)
Theorem View_forward_keeps_entries (self : View) (input out : tensor A) :
  View_forward self input = Ok out ->
  entries out = entries input /\ numel out = numel input.
Proof.
  intros Hout. apply view_entries in Hout. split; [exact Hout |].
  unfold numel. rewrite <- (length_fmap (elem out)), <- (length_fmap (elem input)).
  fold (entries out). fold (entries input). by rewrite Hout.
Qed.

End ViewEntries.

Lemma View_forward_keeps_entries_witness :
  let input := Tensor [2; 6] (fun idx => idx) in
  let out := Tensor [2; 2; 3]
               (fun idx => Torch.unravel [2; 6] (Torch.ravel [2; 2; 3] idx)) in
  entries out = entries input /\ numel out = numel input.
Proof.
  intros input out. apply (View_forward_keeps_entries (MkView [-1; 3]%Z) input out).
  reflexivity.
Defined.

(** ** [Capturing] and [capture] *)

Lemma string_app_assoc (a b c : string) : (a +:+ b) +:+ c = a +:+ (b +:+ c).
Proof.
  induction a as [|x a IH]; [reflexivity |].
  change (String x ((a +:+ b) +:+ c) = String x (a +:+ b +:+ c)). by rewrite IH.
Qed.

Lemma string_app_nil_r (a : string) : a +:+ "" = a.
Proof.
  induction a as [|x a IH]; [reflexivity |].
  change (String x (a +:+ "") = String x a). by rewrite IH.
Qed.

Lemma splitlines_from_line (acc line rest : string) :
  no_line_break line = true ->
  splitlines_from acc (line +:+ newline +:+ rest)
  = (acc +:+ line) :: splitlines_from "" rest.
Proof.
  revert acc. induction line as [|c line IH]; intros acc Hclean.
  - by rewrite string_app_nil_r.
  - cbn in Hclean. apply andb_prop in Hclean as [Hc Hline].
    apply andb_prop in Hc as [Hcr Hlb].
    apply negb_true_iff in Hcr, Hlb.
    change (String c line +:+ newline +:+ rest)
      with (String c (line +:+ newline +:+ rest)).
    cbn [splitlines_from]. rewrite Hcr, Hlb, IH by done.
    by rewrite string_app_assoc.
Qed.

Lemma splitlines_lines_text (lines : list string) :
  Forall (fun line => no_line_break line = true) lines ->
  splitlines (lines_text lines) = lines.
Proof.
  unfold splitlines. induction 1 as [|line lines Hline _ IH]; [reflexivity |].
  cbn [lines_text foldr]. rewrite splitlines_from_line by done.
  cbn. f_equal. exact IH.
Qed.

Lemma print_lines_into_buffer (lines : list string) (io : stdio) (i : nat) :
  sys_stdout io = StringIO i ->
  sys_stdout (print_lines lines io) = StringIO i
  /\ console (print_lines lines io) = console io
  /\ buffers (print_lines lines io) i = buffers io i +:+ lines_text lines.
Proof.
  revert io. induction lines as [|line lines IH]; intros io Hout.
  - cbn. by rewrite string_app_nil_r.
  - cbn [print_lines foldl]. fold (print_lines lines (print_ line io)).
    destruct (IH (print_ line io)) as (H1 & H2 & H3).
    { by rewrite sys_stdout_print. }
    rewrite H1, H2, H3. unfold print_, write. rewrite Hout. cbn.
    rewrite fn_lookup_insert. split; [done |]. split; [done |].
    by rewrite !string_app_assoc.
Qed.

Section CapturedLines.

Context {A : Type}.
Variable lines : list string.
Variable r : result A.

#[local] Abbreviation prints_then := (prints_then lines r).

Hypothesis lines_clean : Forall (fun line => no_line_break line = true) lines.

Lemma captured_lines (io : stdio) :
  body_outcome prints_then io = r
  /\ console (body_exit prints_then io) = console io
  /\ splitlines (buffers (body_exit prints_then io) (next_id io)) = lines.
Proof.
  unfold body_outcome, body_exit, prints_then, scope_entry. cbn [fst snd].
  destruct (print_lines_into_buffer lines
              (snd (Capturing_enter Capturing_new io)) (next_id io) eq_refl)
    as (_ & Hcon & Hbuf).
  split; [reflexivity |]. split; [exact Hcon |].
  rewrite Hbuf. cbn. rewrite fn_lookup_insert. cbn.
  by apply splitlines_lines_text.
Qed.

(** X9. Lines printed inside [with Capturing() as output] come back as the
    items of [output], the same lines in the same order, provided none of them
    contains a line break; nothing reaches the console, and this holds whether
    the block ends normally or with an exception. *)
Theorem Capturing_collects_printed_lines (io : stdio) :
  exists output io',
    with_Capturing prints_then io = (r, output, io')
    /\ items output = lines
    /\ console io' = console io
    /\ sys_stdout io' = sys_stdout io.
Proof.
  destruct (captured_lines io) as (Hr & Hcon & Hlines).
  rewrite with_Capturing_eq, Hr, Hlines, Hcon.
  do 2 eexists. split; [reflexivity | done].
Qed.

(** X10. [capture(fn)] for a function that prints [lines]: when the function
    returns and [LOG_OPT_STDOUT] is unset or empty, the lines are dropped and
    the console is left as it was; when it is set, the [repr] of the list of
    lines is printed after the call; when the function raises, the captured
    lines are dropped whatever the variable says. *)
Theorem capture_replays_only_on_return (repr_lines : list string -> string)
    (environ : gmap string string) (io : stdio) :
  sys_stdout io = Console ->
  fst (capture repr_lines environ prints_then io) = r
  /\ console (snd (capture repr_lines environ prints_then io))
     = match r with
       | Ok _ => if log_opt_stdout environ
                 then console io +:+ repr_lines lines +:+ newline
                 else console io
       | Raise _ => console io
       end.
Proof.
  intros Hout. destruct (captured_lines io) as (Hr & Hcon & Hlines).
  unfold capture. rewrite with_Capturing_eq, Hr, Hlines, Hcon, Hout.
  destruct r as [v | e]; cbn [fst snd]; [| done].
  split; [reflexivity |]. destruct (log_opt_stdout environ); [| reflexivity].
  unfold print_, write. cbn. reflexivity.
Qed.

End CapturedLines.

Lemma Capturing_collects_printed_lines_witness :
  exists output io',
    with_Capturing (prints_then ["solver: iteration 1"; "solver: done"]
                      (@Raise nat ValueError)) stdio0
    = (Raise ValueError, output, io')
    /\ items output = ["solver: iteration 1"; "solver: done"]
    /\ console io' = console stdio0
    /\ sys_stdout io' = sys_stdout stdio0.
Proof.
  apply (Capturing_collects_printed_lines ["solver: iteration 1"; "solver: done"]).
  repeat constructor.
Defined.

Lemma capture_replays_only_on_return_witness :
  let lines := ["solver: done"] in
  let environ : gmap string string := {[ "LOG_OPT_STDOUT" := "1" ]} in
  fst (capture (fun _ => "['solver: done']") environ (prints_then lines (Ok 3)) stdio0) = Ok 3
  /\ console (snd (capture (fun _ => "['solver: done']") environ
                     (prints_then lines (Ok 3)) stdio0))
     = match Ok 3 with
       | Ok _ => if log_opt_stdout environ
                 then console stdio0 +:+ "['solver: done']" +:+ newline
                 else console stdio0
       | Raise _ => console stdio0
       end.
Proof.
  intros lines environ.
  apply (capture_replays_only_on_return lines (Ok 3)); [repeat constructor | reflexivity].
Defined.

(** ** [lock] *)

Section LockMore.

Context {S A : Type}.
Variable fn : S -> result A * S.

(** X11. With the lock free, the wrapper returns what the function returns,
    result or exception, and leaves the lock file as it found it: not locked,
    and with no descriptor left open.  While another description holds the
    lock, the wrapper does not return and the function is not run. *)
Theorem lock_runs_when_free_waits_when_held (s : S) (l : flock_state) :
  (holder l = None -> lock fn s l = Some (fn s, l))
  /\ (forall h, holder l = Some h -> lock fn s l = None).
Proof.
  split; [apply lock_free |]. intros h. apply lock_held.
Qed.

(** X12. The lock is not re-entrant.  In the state of the lock file in which
    the wrapped function runs, a call of any lock-wrapped function waits for
    ever: its own [open] gives a new description, and the lock is held by the
    outer one. *)
Theorem lock_is_not_reentrant {S' A' : Type} (g : S' -> result A' * S') (s' : S')
    (l l2 : flock_state) :
  flock_ex (fst (open_lock l)) (snd (open_lock l)) = Some l2 ->
  lock g s' l2 = None.
Proof.
  intros Hheld. destruct (open_lock_fresh l) as [_ Hne].
  unfold flock_ex in Hheld. cbn [open_lock fst snd holder open_fds] in *.
  destruct (holder l) as [h |] eqn:Hh.
  - destruct (decide (h = _)) as [Heq | _]; [| discriminate].
    destruct Hne. by f_equal.
  - injection Hheld as <-. by eapply lock_held.
Qed.

End LockMore.

Lemma lock_is_not_reentrant_witness :
  lock (fun s : nat => (Ok s, s)) 0 (Flock {[0]} (Some 0)) = None.
Proof.
  apply (lock_is_not_reentrant (fun s : nat => (Ok s, s)) 0 no_lock). reflexivity.
Defined.

(** ** [find_saved_problem] and [init_if_not_saved] *)

Lemma string_length_app (a b : string) :
  String.length (a +:+ b) = String.length a + String.length b.
Proof.
  induction a as [|x a IH]; [reflexivity |].
  change (S (String.length (a +:+ b)) = S (String.length a + String.length b)).
  by rewrite IH.
Qed.

Lemma string_app_inv_r (a b c : string) : a +:+ c = b +:+ c -> a = b.
Proof.
  revert b. induction a as [|x a IH]; intros [|y b] H.
  - reflexivity.
  - apply (f_equal String.length) in H. rewrite !string_length_app in H.
    cbn in H. lia.
  - apply (f_equal String.length) in H. rewrite !string_length_app in H.
    cbn in H. lia.
  - injection H as -> H. f_equal. by apply IH.
Qed.

Section StoreFacts.

Context {P : Type}.
Variable str_float : scalar -> string.
Variable disk : storage P.
Variable problem_cls : problem_class P.
Variable folder : string.

Implicit Types (fs : gmap string (file P)) (kwargs : gmap string value).
Implicit Types (io : stdio) (l : flock_state).

#[local] Abbreviation master := (master_path problem_cls folder).
#[local] Abbreviation pickle := (pickle_path problem_cls folder).

Lemma pickle_path_inj (n n' : nat) : pickle n = pickle n' -> n = n'.
Proof.
  unfold pickle_path. intros H%os_path_join_inj.
  - apply String.app_inj in H. apply (String.app_inj "_") in H.
    apply string_app_inv_r in H. by apply pretty_nat_inj in H.
  - apply prefix_slash_app. by right.
Qed.

(** The table [find_saved_problem] returns is the one in the index file, or
    the empty one when there is no file. *)
Lemma find_saved_cases fs kwargs filename saved_probs :
  find_saved_problem fs master kwargs = Ok (filename, saved_probs) ->
  fs !! master = Some (CsvFile saved_probs)
  \/ (fs !! master = None
      /\ saved_probs = empty_frame ("filename" :: (map_to_list kwargs).*1)).
Proof.
  unfold find_saved_problem.
  destruct (fs !! master) as [[df | p | s] |]; cbn [mbind result_bind]; try discriminate.
  - intros H. left. repeat case_match; congruence.
  - case_bool_decide; [discriminate |]. cbn [mbind result_bind].
    intros Hret. right. split; [done |]. repeat case_match; congruence.
Qed.

(** The ways the decorated function ends: with the files and [kwargs] as they
    were; with the stub of a pickle file, when the dump fails; with the pickle
    file written and [kwargs] changed but the index as it was, when the index
    cannot be opened; with a new instance built and saved. *)
Lemma init_body_cases (load_new : bool) kwargs fs io r kwargs' fs' io' :
  init_if_not_saved_body str_float disk problem_cls folder load_new (kwargs, fs, io)
  = (r, (kwargs', fs', io')) ->
  (kwargs' = kwargs /\ fs' = fs)
  \/ exists filename saved_probs problem,
       find_saved_problem fs master kwargs = Ok (filename, saved_probs)
       /\ cls_init problem_cls kwargs = Ok problem
       /\ ((exists e partial,
              r = Raise e
              /\ pickle_dump disk problem = DumpFails e partial
              /\ kwargs' = kwargs
              /\ fs' = <[pickle (length (rows saved_probs)) := OtherFile partial]> fs)
           \/ (exists e,
                 r = Raise e
                 /\ open_error disk master = Some e
                 /\ kwargs' = <["filename" := VStr (pickle (length (rows saved_probs)))]>
                                kwargs
                 /\ fs' = <[pickle (length (rows saved_probs)) := PickleFile problem]> fs)
           \/ (r = Ok problem
               /\ (kwargs', fs')
                  = saved_state disk problem_cls folder saved_probs problem kwargs fs)).
Proof.
  unfold init_if_not_saved_body, saved_state, master_path, pickle_path.
  destruct (find_saved_problem fs _ kwargs) as [[filename saved_probs] | e];
    [| intros [= <- <- <- <-]; left; done].
  destruct (negb load_new), filename as [found |];
    try (intros [= <- <- <- <-]; left; done);
    (destruct (cls_init problem_cls kwargs) as [problem | e];
       [| intros [= <- <- <- <-]; left; done]);
    (destruct (open_error disk (os_path_join folder (_ +:+ "_" +:+ _))) as [e |];
       [intros [= <- <- <- <-]; left; done |]);
    (destruct (pickle_dump disk problem) as [| e partial] eqn:Hdump;
       [ destruct (open_error disk (os_path_join folder (_ +:+ ".csv"))) as [e |];
         intros [= <- <- <- <-]; right; eexists _, _, problem;
         (split; [reflexivity |]); (split; [reflexivity |]);
         [ right; left; exists e; done | right; right; done ]
       | intros [= <- <- <- <-]; right; eexists _, _, problem;
         (split; [reflexivity |]); (split; [reflexivity |]);
         left; exists e, partial; done ]).
Qed.

Lemma lock_returns {S A} (fn : S -> result A * S) (s : S) l out :
  lock fn s l = Some out -> holder l = None /\ out = (fn s, l).
Proof.
  intros Hout. destruct (holder l) as [h |] eqn:Hh.
  - by rewrite (lock_held fn s l h) in Hout.
  - rewrite lock_free in Hout by done. by injection Hout as <-.
Qed.


End StoreFacts.


Section StoreInvariant.

Context {P : Type}.
Variable str_float : scalar -> string.
Variable disk : storage P.
Variable problem_cls : problem_class P.
Variable folder : string.

Implicit Types (fs : gmap string (file P)) (kwargs : gmap string value).
Implicit Types (io : stdio) (l : flock_state).

#[local] Abbreviation master := (master_path problem_cls folder).
#[local] Abbreviation pickle := (pickle_path problem_cls folder).

(** In a consistent store the file name of the next instance is unused. *)
Lemma store_ok_next_unused fs kwargs filename saved_probs :
  store_ok problem_cls folder fs ->
  find_saved_problem fs master kwargs = Ok (filename, saved_probs) ->
  "filename" ∈ columns saved_probs
  /\ forall n, length (rows saved_probs) <= n -> fs !! pickle n = None.
Proof.
  unfold store_ok. intros Hok Hfind.
  destruct (find_saved_cases _ _ _ _ _ _ Hfind) as [Hfile | [Hfile ->]];
    rewrite Hfile in Hok.
  - exact Hok.
  - split; [apply list_elem_of_here | intros n _; apply Hok].
Qed.

(** The state after a save whose index reads back as written. *)
Lemma saved_state_reads_back saved_probs problem kwargs fs :
  reads_back disk (written_table problem_cls folder saved_probs kwargs) ->
  saved_state disk problem_cls folder saved_probs problem kwargs fs
  = (<["filename" := VStr (pickle (length (rows saved_probs)))]> kwargs,
     <[master := CsvFile (written_table problem_cls folder saved_probs kwargs)]>
       (<[pickle (length (rows saved_probs)) := PickleFile problem]> fs)).
Proof.
  unfold reads_back, saved_state. fold (written_table problem_cls folder saved_probs kwargs).
  by intros ->.
Qed.

(** X14. The store of a problem class is consistent when its index, if there
    is one, is a table with a [filename] column and no pickle file of the
    class is numbered from the row count on.  Every call of
    [init_if_not_saved] that returns an instance keeps the store consistent,
    provided the index it writes reads back as written; and it neither
    overwrites nor removes a file other than the index: an instance, once
    saved, stays as it was saved. *)
Theorem init_if_not_saved_keeps_store_consistent (load_new : bool) kwargs fs io l
    problem kwargs' fs' io' l' :
  store_ok problem_cls folder fs ->
  (forall filename saved_probs,
     find_saved_problem fs master kwargs = Ok (filename, saved_probs) ->
     reads_back disk (written_table problem_cls folder saved_probs kwargs)) ->
  init_if_not_saved str_float disk problem_cls folder load_new (kwargs, fs, io) l
  = Some (Ok problem, (kwargs', fs', io'), l') ->
  store_ok problem_cls folder fs'
  /\ forall f, f ≠ master -> is_Some (fs !! f) -> fs' !! f = fs !! f.
Proof.
  intros Hok Hback. unfold init_if_not_saved. intros [Hfree Hout]%lock_returns.
  injection Hout as Hbody <-. symmetry in Hbody.
  destruct (init_body_cases _ _ _ _ _ _ _ _ _ _ _ _ Hbody)
    as [[-> ->] | (filename & saved_probs & problem' & Hfind & _ & Hcase)];
    [done |].
  destruct Hcase as [(e & ? & [=] & _) | [(e & [=] & _) | [_ Hst]]].
  destruct (store_ok_next_unused _ _ _ _ Hok Hfind) as [Hcol Hunused].
  rewrite (saved_state_reads_back _ _ _ _ (Hback _ _ Hfind)) in Hst.
  injection Hst as -> ->. split.
  - unfold store_ok. rewrite lookup_insert_eq. split.
    + cbn. apply elem_of_app. by left.
    + intros n Hn. cbn in Hn. rewrite length_app in Hn. cbn in Hn.
      rewrite lookup_insert_ne by (apply not_eq_sym, pickle_path_not_master).
      rewrite lookup_insert_ne by (intros Heq%pickle_path_inj; lia).
      apply Hunused. lia.
  - intros f Hf Hsome. rewrite lookup_insert_ne by done.
    rewrite lookup_insert_ne; [done |]. intros <-.
    rewrite Hunused in Hsome by done. by destruct Hsome.
Qed.


(** X16. A forced rebuild is shadowed.  When the index already has a row for
    [kwargs] (all of whose keys are columns), the save goes through and the
    new index reads back as written, a call with [load_new] true builds and
    saves a new instance and appends a row for it; but a later lookup with
    the same keyword arguments still finds the file name of the old row,
    which comes first: the instance just rebuilt is not the one a later call
    loads. *)
Theorem init_if_not_saved_rebuild_is_shadowed kwargs fs io l df found problem :
  holder l = None ->
  fs !! master = Some (CsvFile df) ->
  "filename" ∈ columns df ->
  (forall k, is_Some (kwargs !! k) -> k ∈ columns df) ->
  find_saved_problem fs master kwargs = Ok (Some found, df) ->
  cls_init problem_cls kwargs = Ok problem ->
  save_succeeds disk problem_cls folder df problem ->
  reads_back disk (written_table problem_cls folder df kwargs) ->
  exists kwargs' fs' io' df',
    init_if_not_saved str_float disk problem_cls folder true (kwargs, fs, io) l
    = Some (Ok problem, (kwargs', fs', io'), l)
    /\ fs' !! pickle (length (rows df)) = Some (PickleFile problem)
    /\ fs' !! master = Some (CsvFile df')
    /\ length (rows df') = S (length (rows df))
    /\ find_saved_problem fs' master kwargs = Ok (Some found, df').
Proof.
  intros Hfree Hfile Hcol Hkeys Hfind Hinit Hsave Hback.
  unfold init_if_not_saved. rewrite lock_free by done.
  rewrite (init_body_build _ _ _ _ _ _ _ _ _ _ _ Hfind (or_introl eq_refl) Hinit Hsave).
  rewrite (saved_state_reads_back _ _ _ _ Hback).
  do 4 eexists. split; [reflexivity |].
  split.
  { rewrite lookup_insert_ne by (apply not_eq_sym, pickle_path_not_master).
    apply lookup_insert_eq. }
  split; [apply lookup_insert_eq |].
  split; [cbn; rewrite length_app; cbn; lia |].
  rewrite (find_saved_problem_table _ _ _ _ (lookup_insert_eq _ _ _));
    [| cbn; apply elem_of_app; by left].
  rewrite (find_saved_problem_table _ _ _ df Hfile Hcol) in Hfind.
  cbn [rows columns concat from_dict written_table]. rewrite filter_app.
  match goal with
  | |- context [filter (row_matches ?cols' kwargs) (rows df)] =>
      rewrite (list_filter_iff (row_matches cols' kwargs)
                 (row_matches (columns df) kwargs) (rows df))
  end.
  - destruct (filter (row_matches (columns df) kwargs) (rows df)) as [|r0 rest];
      [discriminate |].
    injection Hfind as <-. reflexivity.
  - intros r. unfold row_matches, map_Forall. split; intros Hm col val Hget Hin.
    + apply Hm; [done |]. apply elem_of_app. by left.
    + apply Hm; [done |]. apply Hkeys. by exists val.
Qed.

End StoreInvariant.

Lemma init_if_not_saved_keeps_store_consistent_witness :
  store_ok class_P "models"
    (saved_state disk_fine class_P "models" index_a kwargs_a2 kwargs_a2 fs_a).2
  /\ forall f, f ≠ master_path class_P "models" ->
       is_Some (fs_a !! f) ->
       (saved_state disk_fine class_P "models" index_a kwargs_a2 kwargs_a2 fs_a).2 !! f
       = fs_a !! f.
Proof.
  apply (init_if_not_saved_keeps_store_consistent str_any disk_fine class_P "models" false
           kwargs_a2 fs_a stdio0 no_lock kwargs_a2
           (saved_state disk_fine class_P "models" index_a kwargs_a2 kwargs_a2 fs_a).1
           (saved_state disk_fine class_P "models" index_a kwargs_a2 kwargs_a2 fs_a).2
           (io_saved str_any None stdio0) no_lock).
  - unfold store_ok.
    assert (Hm : fs_a !! master_path class_P "models" = Some (CsvFile index_a))
      by reflexivity.
    rewrite Hm.
    split; [apply list_elem_of_here |].
    intros n Hn. unfold fs_a.
    rewrite lookup_insert_ne by apply not_eq_sym, pickle_path_not_master.
    change "models/P_0.pkl" with (pickle_path class_P "models" 0).
    apply lookup_singleton_ne.
    intros Heq. apply pickle_path_inj in Heq. subst n. cbn in Hn. lia.
  - intros filename saved_probs _. reflexivity.
  - reflexivity.
Defined.


Lemma init_if_not_saved_rebuild_is_shadowed_witness :
  exists kwargs' fs' io' df',
    init_if_not_saved str_any disk_fine class_P "models" true (kwargs_a, fs_a, stdio0)
      no_lock
    = Some (Ok kwargs_a, (kwargs', fs', io'), no_lock)
    /\ fs' !! pickle_path class_P "models" 1 = Some (PickleFile kwargs_a)
    /\ fs' !! master_path class_P "models" = Some (CsvFile df')
    /\ length (rows df') = 2
    /\ find_saved_problem fs' (master_path class_P "models") kwargs_a
       = Ok (Some (Cell (VStr "models/P_0.pkl")), df').
Proof.
  apply (init_if_not_saved_rebuild_is_shadowed str_any disk_fine class_P "models"
           kwargs_a fs_a stdio0 no_lock index_a (Cell (VStr "models/P_0.pkl")) kwargs_a).
  - reflexivity.
  - reflexivity.
  - apply list_elem_of_here.
  - intros k [v Hk]. destruct (decide (k = "a")) as [-> |Hne].
    + apply list_elem_of_further, list_elem_of_here.
    + unfold kwargs_a in Hk. rewrite lookup_singleton_ne in Hk by done. discriminate.
  - reflexivity.
  - reflexivity.
  - repeat split.
  - reflexivity.
Defined.

(** ** [print_metrics]: the loop over the partitions *)

Lemma mapM_result_Forall2 {A B} (f : A -> result B) (l : list A) :
  (forall x, x ∈ l -> exists y, f x = Ok y) ->
  exists ys, mapM_result f l = Ok ys /\ Forall2 (fun x y => f x = Ok y) l ys.
Proof.
  induction l as [|x l IH]; intros Hok.
  - exists []. split; [reflexivity | constructor].
  - destruct (Hok x (list_elem_of_here _ _)) as [y Hy].
    destruct IH as (ys & Hys & Hall).
    { intros x' Hx'. apply Hok. by apply list_elem_of_further. }
    exists (y :: ys). split; [| by constructor].
    cbn [mapM_result]. rewrite Hy. cbn. rewrite Hys. reflexivity.
Qed.

Lemma indices_rank1 (n : nat) : indices [n] = (fun i => [i]) <$> seq 0 n.
Proof.
  cbn [indices]. generalize (seq 0 n). intros l.
  induction l as [|i l IH]; [reflexivity |].
  cbn. f_equal; exact IH.
Qed.

Lemma entries_flatten (t : tensor Qc) : entries (Torch.flatten t) = entries t.
Proof.
  unfold entries at 1. unfold Torch.flatten. cbn [shape elem].
  rewrite indices_rank1, <- list_fmap_compose. unfold numel, entries.
  apply list_eq. intros k. rewrite list_lookup_fmap.
  destruct (decide (k < length (indices (shape t)))) as [Hlt | Hge].
  - rewrite lookup_seq_lt by done. cbn.
    destruct ((elem t <$> indices (shape t)) !! k) as [x|] eqn:Hx; [reflexivity |].
    apply lookup_ge_None in Hx. rewrite length_fmap in Hx. lia.
  - rewrite lookup_seq_ge by lia. cbn. symmetry. apply lookup_ge_None.
    rewrite length_fmap. lia.
Qed.

Lemma numel_flatten (t : tensor Qc) : numel (Torch.flatten t) = numel t.
Proof.
  unfold numel at 1. unfold Torch.flatten. cbn [shape].
  rewrite indices_rank1, length_fmap, length_seq. reflexivity.
Qed.

Lemma mean_flatten (t : tensor Qc) : Torch.mean (Torch.flatten t) = Torch.mean t.
Proof. unfold Torch.mean. rewrite numel_flatten, entries_flatten. reflexivity. Qed.

(** Stacking tensors without dimensions gives the vector of their values. *)
Lemma stack_scalars (ts : list (tensor Qc)) :
  ts ≠ [] ->
  Forall (fun t => shape t = []) ts ->
  exists t, Torch.stack ts = Ok t
    /\ shape t = [length ts]
    /\ entries t = (fun l => elem l []) <$> ts.
Proof.
  intros Hne Hsh. destruct ts as [|t0 ts']; [done |].
  unfold Torch.stack.
  assert (Hall : forallb (fun t => bool_decide (shape t = shape t0)) (t0 :: ts') = true).
  { apply forallb_forall. intros t Ht%list_elem_of_In. apply bool_decide_eq_true.
    rewrite Forall_forall in Hsh. rewrite (Hsh t Ht).
    symmetry. apply Hsh, list_elem_of_here. }
  rewrite Hall. eexists. split; [reflexivity |].
  rewrite Forall_forall in Hsh.
  rewrite (Hsh t0 (list_elem_of_here _ _)).
  split; [reflexivity |].
  unfold entries. cbn [shape elem]. rewrite indices_rank1, <- list_fmap_compose.
  apply list_eq. intros k. rewrite !list_lookup_fmap.
  destruct ((t0 :: ts') !! k) as [t|] eqn:Hk.
  - rewrite lookup_seq_lt by (by apply lookup_lt_Some in Hk).
    cbn. rewrite Hk. reflexivity.
  - rewrite lookup_seq_ge by (by apply lookup_ge_None in Hk). reflexivity.
Qed.

Section MetricsLoop.

Context {aux dec : Type}.
Variable model : tensor Qc -> tensor Qc.
Variable problem : problem_t aux dec.
Variable loss_fn : tensor Qc -> tensor Qc -> aux -> string -> nat -> tensor Qc.
Variable str_float : scalar -> string.
Variable prefix : string.

#[local] Abbreviation measure := (partition_metrics model problem loss_fn prefix).
#[local] Abbreviation run_from :=
  (print_metrics_from model problem loss_fn str_float prefix).
#[local] Abbreviation line :=
  (fun (d : dataset aux) m => metrics_line str_float prefix d.2 m).

Lemma print_metrics_from_lines (datasets : list (dataset aux)) metrics io metrics' io' :
  run_from datasets metrics io = (Ok metrics', io') ->
  exists ms,
    Forall2 (fun d m => measure d = Ok m) datasets ms
    /\ io' = print_lines (zip_with line datasets ms) io.
Proof.
  revert metrics io. induction datasets as [|d ds IH]; intros metrics io.
  - cbn. intros [= _ <-]. exists []. split; [constructor | reflexivity].
  - cbn [print_metrics_from].
    destruct (measure d) as [m | e] eqn:Hd; [| discriminate].
    intros (ms & Hms & ->)%IH. exists (m :: ms). split; [by constructor | reflexivity].
Qed.

Lemma print_metrics_from_keys (datasets : list (dataset aux)) metrics io metrics' io' :
  run_from datasets metrics io = (Ok metrics', io') ->
  forall p, is_Some (metrics' !! p)
            <-> is_Some (metrics !! p) \/ exists d, d ∈ datasets /\ d.2 = p.
Proof.
  revert metrics io. induction datasets as [|d ds IH]; intros metrics io.
  - cbn. intros [= <- _] p. split; [by left |].
    intros [? | (d & Hd%elem_of_nil & _)]; done.
  - cbn [print_metrics_from].
    destruct (measure d) as [m | e] eqn:Hd; [| discriminate].
    intros Hrun p. rewrite (IH _ _ Hrun p). split.
    + intros [Hin | (d' & Hd' & <-)].
      * destruct (decide (d.2 = p)) as [<- | Hne].
        -- right. exists d. split; [apply list_elem_of_here | done].
        -- left. by rewrite lookup_insert_ne in Hin.
      * right. exists d'. split; [by apply list_elem_of_further | done].
    + intros [Hin | (d' & Hd' & <-)].
      * left. destruct (decide (d.2 = p)) as [<- | Hne].
        -- rewrite lookup_insert_eq. by eexists.
        -- by rewrite lookup_insert_ne.
      * apply elem_of_cons in Hd' as [-> | Hd'].
        -- left. rewrite lookup_insert_eq. by eexists.
        -- right. by exists d'.
Qed.

Lemma print_metrics_from_last_wins (datasets : list (dataset aux)) metrics io metrics' io'
    (i : nat) d m :
  run_from datasets metrics io = (Ok metrics', io') ->
  datasets !! i = Some d ->
  measure d = Ok m ->
  (forall j d', i < j -> datasets !! j = Some d' -> d'.2 ≠ d.2) ->
  metrics' !! d.2 = Some m.
Proof.
  revert metrics io i. induction datasets as [|d0 ds IH]; intros metrics io i;
    [intros _ Hi; done |].
  cbn [print_metrics_from].
  destruct (measure d0) as [m0 | e] eqn:Hd0; [| discriminate].
  intros Hrun Hi Hd Hlast. destruct i as [|i].
  - injection Hi as ->. rewrite Hd0 in Hd. injection Hd as ->.
    assert (Hothers : Forall (fun d' : dataset aux => d'.2 ≠ d.2) ds).
    { apply Forall_forall. intros d' [j Hj]%list_elem_of_lookup.
      apply (Hlast (S j) d'); [lia | exact Hj]. }
    rewrite (print_metrics_from_other model problem loss_fn str_float (d.2) prefix
               ds _ _ _ _ Hothers Hrun).
    apply lookup_insert_eq.
  - apply (IH _ _ i Hrun Hi Hd). intros j d' Hij Hj.
    apply (Hlast (S j) d'); [lia | exact Hj].
Qed.

(** X17. One line and one entry for each partition.  When [print_metrics]
    returns, every dataset has been measured and one line has been printed for
    each, in the order of [datasets]; the keys of the returned dictionary are
    exactly the partition names that occur; and when a name occurs more than
    once, the entry is that of its last dataset (the lines of the earlier ones
    are printed all the same). *)
Theorem print_metrics_reports_every_partition (datasets : list (dataset aux))
    (loss_type : string) (io : stdio) metrics io' :
  print_metrics model problem loss_fn str_float datasets loss_type prefix io
  = (Ok metrics, io') ->
  exists ms,
    Forall2 (fun d m => measure d = Ok m) datasets ms
    /\ io' = print_lines (zip_with line datasets ms) io
    /\ (forall p, is_Some (metrics !! p) <-> exists d, d ∈ datasets /\ d.2 = p)
    /\ (forall i d m,
          datasets !! i = Some d -> ms !! i = Some m ->
          (forall j d', i < j -> datasets !! j = Some d' -> d'.2 ≠ d.2) ->
          metrics !! d.2 = Some m).
Proof.
  unfold print_metrics. intros Hrun.
  destruct (print_metrics_from_lines _ _ _ _ _ Hrun) as (ms & Hms & Hio).
  exists ms. split; [exact Hms |]. split; [exact Hio |]. split.
  - intros p. rewrite (print_metrics_from_keys _ _ _ _ _ Hrun p).
    rewrite lookup_empty. split; [intros [[? ?] | ?]; done | by right].
  - intros i d m Hi Hm Hlast.
    apply (print_metrics_from_last_wins _ _ _ _ _ i d m Hrun Hi); [| exact Hlast].
    exact (Forall2_lookup_lr _ _ _ _ _ _ Hms Hi Hm).
Qed.

(** X18. The first partition that fails ends the call.  When the datasets
    before [d] are measured without error and measuring [d] raises,
    [print_metrics] raises that exception: the lines of the datasets before
    [d] have been printed, nothing is printed for [d] or the datasets after
    it, and no dictionary is returned. *)
Theorem print_metrics_stops_at_first_error (ds1 ds2 : list (dataset aux)) (d : dataset aux)
    (ms : list metric) (e : exn) (loss_type : string) (io : stdio) :
  Forall2 (fun d m => measure d = Ok m) ds1 ms ->
  measure d = Raise e ->
  print_metrics model problem loss_fn str_float (ds1 ++ d :: ds2) loss_type prefix io
  = (Raise e, print_lines (zip_with line ds1 ms) io).
Proof.
  unfold print_metrics. intros Hms Hd. generalize (∅ : gmap string metric).
  revert io. induction Hms as [|d1 m1 ds1 ms Hd1 _ IH]; intros io metrics.
  - cbn [app print_metrics_from]. rewrite Hd. reflexivity.
  - cbn [app print_metrics_from]. rewrite Hd1. rewrite IH. reflexivity.
Qed.

(** X19. A partition other than test needs a sample.  For a partition whose
    name is not test and whose [Xs] has length 0, the list of losses is empty
    and [torch.stack] raises: [print_metrics] raises [RuntimeError] when it
    reaches that partition, having printed the lines of the ones before. *)
Theorem print_metrics_no_sample_raises (ds1 ds2 : list (dataset aux)) (ms : list metric)
    (sh : list nat) (Xs Ys : tensor Qc) (Ys_aux : list aux) (partition : string)
    (loss_type : string) (io : stdio) :
  Forall2 (fun d m => measure d = Ok m) ds1 ms ->
  partition ≠ "test" ->
  shape Xs = 0 :: sh ->
  print_metrics model problem loss_fn str_float
    (ds1 ++ (Xs, Ys, Ys_aux, partition) :: ds2) loss_type prefix io
  = (Raise RuntimeError, print_lines (zip_with line ds1 ms) io).
Proof.
  intros Hms Hp Hsh. unfold print_metrics. generalize (∅ : gmap string metric).
  revert io. induction Hms as [|d1 m1 ds1 ms Hd1 _ IH]; intros io metrics.
  - cbn [app print_metrics_from]. unfold partition_metrics.
    rewrite (bool_decide_true (partition ≠ "test")) by done.
    unfold sample_losses, Torch.len.
    rewrite Hsh. reflexivity.
  - cbn [app print_metrics_from]. rewrite Hd1. rewrite IH. reflexivity.
Qed.

(** X20. The loss of a partition other than test is the mean of the losses of
    its samples.  When [Xs] has [n+1] samples, [Ys] and [Ys_aux] have at
    least as many, and [loss_fn] returns tensors without dimensions, the
    losses are gathered without error into a vector of length [n+1], whose
    entry [i] is [loss_fn(model(Xs[i]).squeeze(), Ys[i], Ys_aux[i], partition,
    i)], and the loss reported for the partition is their sum divided by
    [n+1]. *)
Theorem print_metrics_loss_is_mean_of_sample_losses (n k : nat) (shx shy : list nat)
    (Xs Ys : tensor Qc) (Ys_aux : list aux) (partition : string) :
  partition ≠ "test" ->
  shape Xs = S n :: shx ->
  shape Ys = k :: shy ->
  S n <= k ->
  S n <= length Ys_aux ->
  (forall pred y a i, shape (loss_fn pred y a partition i) = []) ->
  exists (ls : list Qc) (losses : tensor Qc),
    Forall2 (fun i l => exists x y a,
               Torch.select i Xs = Ok x /\ Torch.select i Ys = Ok y
               /\ Ys_aux !! i = Some a
               /\ l = elem (loss_fn (Torch.squeeze_all (model x)) y a partition i) [])
            (seq 0 (S n)) ls
    /\ sample_losses model loss_fn Xs Ys Ys_aux partition = Ok losses
    /\ shape losses = [S n]
    /\ entries losses = ls
    /\ forall m, measure (Xs, Ys, Ys_aux, partition) = Ok m ->
         loss m = Fin (Torch.Qcsum ls / Q2Qc (inject_Z (Z.of_nat (S n)))).
Proof.
  intros Hp HshX HshY Hk Haux Hscalar.
  set (f := fun i : nat =>
              x ← Torch.select i Xs;
              let pred := Torch.squeeze_all (model x) in
              y ← Torch.select i Ys;
              a ← from_option Ok (Raise IndexError) (Ys_aux !! i);
              Ok (loss_fn pred y a partition i)).
  assert (Hf : forall i, i ∈ seq 0 (S n) -> exists x y a,
               Torch.select i Xs = Ok x /\ Torch.select i Ys = Ok y
               /\ Ys_aux !! i = Some a
               /\ f i = Ok (loss_fn (Torch.squeeze_all (model x)) y a partition i)).
  { intros i Hi%elem_of_seq.
    destruct (lookup_lt_is_Some_2 Ys_aux i) as [a Ha]; [lia |].
    unfold f, Torch.select. rewrite HshX, HshY.
    assert (Hi1 : (i <? S n) = true) by (apply Nat.ltb_lt; lia).
    assert (Hi2 : (i <? k) = true) by (apply Nat.ltb_lt; lia).
    rewrite Hi1, Hi2. do 3 eexists. repeat (split; [reflexivity || exact Ha |]).
    cbn. rewrite Ha. reflexivity. }
  destruct (mapM_result_Forall2 f (seq 0 (S n))) as (ts & Hts & Hall).
  { intros i Hi. destruct (Hf i Hi) as (x & y & a & _ & _ & _ & Hfi). eauto. }
  assert (Hshapes : Forall (fun t => shape t = []) ts).
  { apply Forall_forall. intros t [j Hj]%list_elem_of_lookup.
    destruct (Forall2_lookup_r _ _ _ _ _ Hall Hj) as (i & Hi & Hfi).
    destruct (Hf i) as (x & y & a & _ & _ & _ & Hfi'); [by eapply list_elem_of_lookup_2 |].
    rewrite Hfi' in Hfi. injection Hfi as <-. apply Hscalar. }
  assert (Hlen : length ts = S n).
  { rewrite <- (Forall2_length _ _ _ Hall). apply length_seq. }
  destruct (stack_scalars ts) as (t0 & Hstack & Hsh0 & Hent0); [| exact Hshapes |].
  { intros ->. discriminate. }
  assert (Hlosses : sample_losses model loss_fn Xs Ys Ys_aux partition
                    = Ok (Torch.flatten t0)).
  { unfold sample_losses, Torch.len. rewrite HshX. cbn [mbind result_bind].
    fold f. rewrite Hts. cbn [mbind result_bind]. rewrite Hstack. reflexivity. }
  assert (Hnumel : numel t0 = S n).
  { unfold numel. rewrite Hsh0, indices_rank1, length_fmap, length_seq. exact Hlen. }
  exists ((fun l => elem l []) <$> ts), (Torch.flatten t0).
  split.
  { apply Forall2_fmap_r. apply (Forall2_impl _ _ _ _ Hall).
    intros i t. unfold f, Torch.select. rewrite HshX, HshY.
    destruct (i <? S n); [| discriminate]. destruct (i <? k); [| discriminate].
    cbn [mbind result_bind].
    destruct (Ys_aux !! i) as [a|]; [| discriminate]. cbn.
    intros [= <-]. do 3 eexists. repeat (split; [reflexivity |]). reflexivity. }
  split; [exact Hlosses |].
  split; [cbn [shape Torch.flatten]; by rewrite Hnumel |].
  split; [by rewrite entries_flatten |].
  intros m. unfold partition_metrics.
  rewrite (bool_decide_true (partition ≠ "test")) by done.
  rewrite Hlosses. cbn [mbind result_bind].
  destruct (Torch.L1Loss _ _) as [v | e]; [| discriminate].
  intros [= <-]. cbn [loss]. rewrite mean_flatten. unfold Torch.mean.
  rewrite Hnumel, Hent0. reflexivity.
Qed.

End MetricsLoop.

Lemma print_metrics_reports_every_partition_witness :
  exists metrics io',
    print_metrics model_id problem_id loss_pred str_any [data_train; data_test] "mse" ""
      stdio0 = (Ok metrics, io')
    /\ exists ms,
         Forall2 (fun d m => partition_metrics model_id problem_id loss_pred "" d = Ok m)
           [data_train; data_test] ms
         /\ io' = print_lines
                    (zip_with (fun (d : dataset unit) m => metrics_line str_any "" d.2 m)
                       [data_train; data_test] ms) stdio0
         /\ (forall p, is_Some (metrics !! p)
                       <-> exists d, d ∈ [data_train; data_test] /\ d.2 = p)
         /\ (forall i d m,
               [data_train; data_test] !! i = Some d -> ms !! i = Some m ->
               (forall j d', i < j -> [data_train; data_test] !! j = Some d' -> d'.2 ≠ d.2) ->
               metrics !! d.2 = Some m).
Proof.
  eexists. eexists.
  assert (Hrun : forall r, r = print_metrics model_id problem_id loss_pred str_any
                             [data_train; data_test] "mse" "" stdio0 ->
                 print_metrics model_id problem_id loss_pred str_any
                   [data_train; data_test] "mse" "" stdio0
                 = (Ok (match fst r with Ok m => m | _ => ∅ end), snd r)).
  { intros r ->. vm_compute. reflexivity. }
  split.
  - apply (Hrun _ eq_refl).
  - apply (print_metrics_reports_every_partition model_id problem_id loss_pred str_any ""
             [data_train; data_test] "mse" stdio0 _ _ (Hrun _ eq_refl)).
Defined.

Lemma print_metrics_stops_at_first_error_witness :
  print_metrics model_id problem_id loss_pred str_any
    ([data_test] ++ data_train_empty :: [data_train]) "mse" "" stdio0
  = (Raise RuntimeError,
     print_lines
       (zip_with (fun (d : dataset unit) m => metrics_line str_any "" d.2 m) [data_test]
          [test_metric model_id problem_id (vector [Q2Qc 1; Q2Qc 3])
             (vector [Q2Qc 1; Q2Qc 3]) [(); ()]])
       stdio0).
Proof.
  apply (print_metrics_stops_at_first_error model_id problem_id loss_pred str_any ""
           [data_test] [data_train] data_train_empty).
  - constructor; [apply partition_metrics_test | constructor].
  - reflexivity.
Defined.

Lemma print_metrics_no_sample_raises_witness :
  print_metrics model_id problem_id loss_pred str_any
    ([] ++ (vector [], vector [], [], "validation") :: [data_test]) "mse" "" stdio0
  = (Raise RuntimeError, print_lines (zip_with (fun (d : dataset unit) m =>
                                         metrics_line str_any "" d.2 m) [] []) stdio0).
Proof.
  apply (print_metrics_no_sample_raises model_id problem_id loss_pred str_any ""
           [] [data_test] [] [] (vector []) (vector []) [] "validation" "mse" stdio0).
  - constructor.
  - discriminate.
  - reflexivity.
Defined.

Lemma print_metrics_loss_is_mean_of_sample_losses_witness :
  exists (ls : list Qc) (losses : tensor Qc),
    Forall2 (fun i l => exists x y a,
               Torch.select i (vector [Q2Qc 1; Q2Qc 2]) = Ok x
               /\ Torch.select i (vector [Q2Qc 1; Q2Qc 4]) = Ok y
               /\ [(); ()] !! i = Some a
               /\ l = elem (loss_abs (Torch.squeeze_all (model_id x)) y a "train" i) [])
            (seq 0 2) ls
    /\ sample_losses model_id loss_abs (vector [Q2Qc 1; Q2Qc 2]) (vector [Q2Qc 1; Q2Qc 4])
         [(); ()] "train" = Ok losses
    /\ shape losses = [2]
    /\ entries losses = ls
    /\ forall m,
         partition_metrics model_id problem_id loss_abs ""
           (vector [Q2Qc 1; Q2Qc 2], vector [Q2Qc 1; Q2Qc 4], [(); ()], "train") = Ok m ->
         loss m = Fin (Torch.Qcsum ls / Q2Qc (inject_Z (Z.of_nat 2))).
Proof.
  apply (print_metrics_loss_is_mean_of_sample_losses model_id problem_id loss_abs ""
           1 2 [] [] (vector [Q2Qc 1; Q2Qc 2]) (vector [Q2Qc 1; Q2Qc 4]) [(); ()] "train").
  - discriminate.
  - reflexivity.
  - reflexivity.
  - lia.
  - simpl. lia.
  - reflexivity.
Defined.

Section StoreErrors.

Context {P : Type}.
Variable str_float : scalar -> string.
Variable disk : storage P.
Variable problem_cls : problem_class P.
Variable folder : string.

Implicit Types (fs : gmap string (file P)) (kwargs : gmap string value).
Implicit Types (io : stdio) (l : flock_state).

#[local] Abbreviation master := (master_path problem_cls folder).
#[local] Abbreviation pickle := (pickle_path problem_cls folder).

(** X21. Every call of [init_if_not_saved] that returns an instance leaves an
    index whose rows all name saved instances, when it found one and the
    index it writes reads back as written: the row it appends names the file
    it has just written, and the files the older rows name are still pickled
    instances. *)
Theorem init_if_not_saved_index_names_saved_instances (load_new : bool) kwargs fs io l
    problem kwargs' fs' io' l' :
  index_names_instances problem_cls folder fs ->
  (forall filename saved_probs,
     find_saved_problem fs master kwargs = Ok (filename, saved_probs) ->
     reads_back disk (written_table problem_cls folder saved_probs kwargs)) ->
  init_if_not_saved str_float disk problem_cls folder load_new (kwargs, fs, io) l
  = Some (Ok problem, (kwargs', fs', io'), l') ->
  index_names_instances problem_cls folder fs'.
Proof.
  intros Hidx Hback. unfold init_if_not_saved. intros [Hfree Hout]%lock_returns.
  injection Hout as Hbody <-. symmetry in Hbody.
  destruct (init_body_cases _ _ _ _ _ _ _ _ _ _ _ _ Hbody)
    as [[-> ->] | (filename & saved_probs & problem' & Hfind & _ & Hcase)];
    [done |].
  destruct Hcase as [(e & ? & [=] & _) | [(e & [=] & _) | [[= <-] Hst]]].
  rewrite (saved_state_reads_back _ _ _ _ _ _ _ (Hback _ _ Hfind)) in Hst.
  injection Hst as -> ->.
  intros df' row. rewrite lookup_insert_eq. intros [= <-].
  cbn [rows concat from_dict written_table].
  assert (Hpickle : forall path p0,
            path ≠ master -> fs !! path = Some (PickleFile p0) ->
            exists p,
              (<[master := CsvFile (written_table problem_cls folder saved_probs kwargs)]>
                 (<[pickle (length (rows saved_probs)) := PickleFile problem]> fs))
                !! path = Some (PickleFile p)).
  { intros path p0 Hne Hp0. rewrite lookup_insert_ne by done.
    destruct (decide (pickle (length (rows saved_probs)) = path)) as [<- | Hne'].
    - exists problem. apply lookup_insert_eq.
    - exists p0. by rewrite lookup_insert_ne. }
  intros [Hold | ->%list_elem_of_singleton]%elem_of_app.
  - destruct (find_saved_cases _ _ _ _ _ _ Hfind) as [Hfile | [_ ->]];
      [| by apply elem_of_nil in Hold].
    destruct (Hidx _ _ Hfile Hold) as (path & p0 & Hrow & Hp0).
    destruct (Hpickle path p0) as [p Hp]; [| exact Hp0 | by exists path, p].
    intros ->. rewrite Hfile in Hp0. discriminate.
  - exists (pickle (length (rows saved_probs))), problem.
    split; [apply lookup_insert_eq |].
    rewrite lookup_insert_ne by (apply not_eq_sym, pickle_path_not_master).
    apply lookup_insert_eq.
Qed.


End StoreErrors.

Lemma init_if_not_saved_index_names_saved_instances_witness :
  index_names_instances class_P "models"
    (saved_state disk_fine class_P "models" index_a kwargs_a2 kwargs_a2 fs_a).2.
Proof.
  apply (init_if_not_saved_index_names_saved_instances str_any disk_fine class_P "models"
           false kwargs_a2 fs_a stdio0 no_lock kwargs_a2
           (saved_state disk_fine class_P "models" index_a kwargs_a2 kwargs_a2 fs_a).1
           (saved_state disk_fine class_P "models" index_a kwargs_a2 kwargs_a2 fs_a).2
           (io_saved str_any None stdio0) no_lock).
  - intros df r Hfile Hr.
    assert (Hm : fs_a !! master_path class_P "models" = Some (CsvFile index_a))
      by reflexivity.
    rewrite Hm in Hfile. injection Hfile as <-.
    apply list_elem_of_singleton in Hr as ->.
    exists "models/P_0.pkl", kwargs_a. split; reflexivity.
  - intros filename saved_probs _. reflexivity.
  - reflexivity.
Defined.


(** ** [move_to_gpu] *)

Section MoveToGpuFacts.

Context {V : Type}.
Implicit Types (o : object V) (a : attr V) (key : string).

#[local] Abbreviation step device :=
  (fun (problem : object V) (kv : string * attr V) =>
     let '(key, value) := kv in
     match value with
     | TensorAttr _ t =>
         Object (class_attrs problem) (<[key := TensorAttr device t]> (inst_dict problem))
     | _ => problem
     end).

Lemma move_loop_class device (l : list (string * attr V)) o :
  class_attrs (foldl (step device) o l) = class_attrs o.
Proof.
  revert o. induction l as [|[k [|d t|v]] l IH]; intros o; cbn [foldl]; try apply IH.
  - reflexivity.
  - rewrite IH. reflexivity.
Qed.

Lemma move_loop_other device (l : list (string * attr V)) o key :
  (forall d t, (key, TensorAttr d t) ∉ l) ->
  inst_dict (foldl (step device) o l) !! key = inst_dict o !! key.
Proof.
  revert o. induction l as [|[k [|d t|v]] l IH]; intros o Hnot; cbn [foldl].
  - reflexivity.
  - apply IH. intros d t Hin. apply (Hnot d t). by apply list_elem_of_further.
  - rewrite IH.
    + cbn [inst_dict]. apply lookup_insert_ne. intros ->.
      apply (Hnot d t), list_elem_of_here.
    + intros d' t' Hin. apply (Hnot d' t'). by apply list_elem_of_further.
  - apply IH. intros d t Hin. apply (Hnot d t). by apply list_elem_of_further.
Qed.

Lemma move_loop_tensor device (l : list (string * attr V)) o key d t :
  NoDup l.*1 ->
  (key, TensorAttr d t) ∈ l ->
  inst_dict (foldl (step device) o l) !! key = Some (TensorAttr device t).
Proof.
  revert o. induction l as [|[k a] l IH]; intros o Hnodup Hin.
  - by apply elem_of_nil in Hin.
  - rewrite fmap_cons in Hnodup. apply NoDup_cons in Hnodup as [Hk Hnodup].
    apply elem_of_cons in Hin as [[= <- <-] | Hin].
    + cbn [foldl]. rewrite move_loop_other.
      * apply lookup_insert_eq.
      * intros d' t' Hin. apply Hk. cbn.
        apply (list_elem_of_fmap_2 fst) in Hin. exact Hin.
    + cbn [foldl]. by apply IH.
Qed.

Lemma getmembers_lookup o key a :
  (key, a) ∈ getmembers o <-> getattr o key = Some a /\ isroutine a = false.
Proof.
  unfold getmembers, getattr. rewrite list_elem_of_filter, elem_of_map_to_list.
  cbn. tauto.
Qed.

Lemma getmembers_NoDup o : NoDup (getmembers o).*1.
Proof.
  unfold getmembers.
  apply (sublist_NoDup _ (map_to_list (inst_dict o ∪ class_attrs o)).*1).
  - apply NoDup_fst_map_to_list.
  - apply fmap_sublist, sublist_filter.
Qed.

(** What the loop leaves in [problem.__dict__]. *)
Lemma move_to_gpu_inst_dict (cuda_is_available : bool) o key :
  inst_dict (move_to_gpu cuda_is_available o) !! key
  = match getattr o key with
    | Some (TensorAttr _ t) =>
        Some (TensorAttr (if cuda_is_available then Cuda0 else Cpu) t)
    | _ => inst_dict o !! key
    end.
Proof.
  unfold move_to_gpu.
  destruct (getattr o key) as [[|d t|v] |] eqn:Hget.
  - apply move_loop_other. intros d t [Hg _]%getmembers_lookup. congruence.
  - apply (move_loop_tensor _ _ _ _ d t); [apply getmembers_NoDup |].
    apply getmembers_lookup. by split.
  - apply move_loop_other. intros d t [Hg _]%getmembers_lookup. congruence.
  - apply move_loop_other. intros d t [Hg _]%getmembers_lookup. congruence.
Qed.

Lemma move_to_gpu_class (cuda_is_available : bool) o :
  class_attrs (move_to_gpu cuda_is_available o) = class_attrs o.
Proof. unfold move_to_gpu. apply move_loop_class. Qed.

Lemma move_to_gpu_getattr (cuda_is_available : bool) o key :
  getattr (move_to_gpu cuda_is_available o) key
  = match getattr o key with
    | Some (TensorAttr _ t) =>
        Some (TensorAttr (if cuda_is_available then Cuda0 else Cpu) t)
    | other => other
    end.
Proof.
  unfold getattr at 1. rewrite lookup_union, move_to_gpu_inst_dict, move_to_gpu_class.
  destruct (getattr o key) as [[|d t|v] |] eqn:Hget;
    try (unfold getattr in Hget; rewrite lookup_union in Hget; exact Hget).
  by destruct (class_attrs o !! key).
Qed.

(** X23. After [move_to_gpu], every attribute of the problem that is a
    tensor, be it the instance's own or its class's, reads as the same tensor
    on the device ([cuda:0] when CUDA is available, the CPU otherwise); every
    other attribute reads as before; the attributes of the class itself are
    not written: a tensor of the class is shadowed by a moved copy in the
    instance's [__dict__]. *)
Theorem move_to_gpu_moves_every_tensor (cuda_is_available : bool) o :
  let device := if cuda_is_available then Cuda0 else Cpu in
  let o' := move_to_gpu cuda_is_available o in
  class_attrs o' = class_attrs o
  /\ (forall key d t,
        getattr o key = Some (TensorAttr d t) ->
        getattr o' key = Some (TensorAttr device t)
        /\ inst_dict o' !! key = Some (TensorAttr device t))
  /\ (forall key,
        (forall d t, getattr o key ≠ Some (TensorAttr d t)) ->
        getattr o' key = getattr o key
        /\ inst_dict o' !! key = inst_dict o !! key).
Proof.
  intros device o'. split; [apply move_to_gpu_class |]. split.
  - intros key d t Hget. unfold o'.
    rewrite move_to_gpu_getattr, move_to_gpu_inst_dict, Hget. done.
  - intros key Hnot. unfold o'.
    rewrite move_to_gpu_getattr, move_to_gpu_inst_dict.
    destruct (getattr o key) as [[|d t|v] |] eqn:Hget; try done.
    by destruct (Hnot d t).
Qed.

(** X24. Calling [move_to_gpu] a second time changes nothing. *)
Theorem move_to_gpu_twice (cuda_is_available : bool) o :
  move_to_gpu cuda_is_available (move_to_gpu cuda_is_available o)
  = move_to_gpu cuda_is_available o.
Proof.
  assert (Heq : forall a b : object V,
            class_attrs a = class_attrs b -> inst_dict a = inst_dict b -> a = b).
  { intros [ca ia] [cb ib]. cbn. by intros -> ->. }
  apply Heq.
  - by rewrite !move_to_gpu_class.
  - apply map_eq. intros key.
    rewrite (move_to_gpu_inst_dict _ (move_to_gpu cuda_is_available o)).
    rewrite move_to_gpu_getattr, move_to_gpu_inst_dict.
    by destruct (getattr o key) as [[|d t|v] |].
Qed.

End MoveToGpuFacts.
